(** * claude-agent-server: the relay server of [packages/server/index.ts]

    A shallow embedding of the server's module-level state and of its
    event handlers, and the properties of the specification proved on it.

    The runtime is single-threaded: every handler runs to its next
    suspension point without interleaving, so a handler is a function from
    the module state to the new state and the effects it performed. *)

From Stdlib Require Import List String Ascii Bool Arith ZArith Lia.
From Stdlib Require Import Floats.SpecFloat DecimalString.
Import ListNotations.
#[local] Set Warnings "-register-all".
Local Open Scope string_scope.
Local Open Scope list_scope.

(** ** JavaScript values

    The values the server handles: what [JSON.parse] returns, plus
    [undefined] and the one closure the server puts in the agent options.
    A number is an IEEE 754 binary64; an object is its own enumerable
    properties in property order. *)

Inductive Value : Type :=
| VUndefined
| VNull
| VBool (b : bool)
| VNumber (n : spec_float)
| VString (s : string)
| VArray (items : list Value)
| VObject (props : list (string * Value))
| VStderrCallback.

Definition Props : Type := list (string * Value).

(** ToBoolean. *)
Definition truthy (v : Value) : bool :=
  match v with
  | VUndefined | VNull => false
  | VBool b => b
  | VNumber (S754_zero _) | VNumber S754_nan => false
  | VNumber _ => true
  | VString s => negb (s =? EmptyString)
  | VArray _ | VObject _ | VStderrCallback => true
  end.

(** [o[k]] on a property list. *)
Fixpoint get_prop (k : string) (o : Props) : option Value :=
  match o with
  | [] => None
  | (k', v) :: o' => if k' =? k then Some v else get_prop k o'
  end.

(** [o[k] = v] (CreateDataProperty): an existing key keeps its place, a new
    key goes last. *)
Fixpoint set_prop (k : string) (v : Value) (o : Props) : Props :=
  match o with
  | [] => [(k, v)]
  | (k', v') :: o' =>
      if k' =? k then (k', v) :: o' else (k', v') :: set_prop k v o'
  end.

(** Decimal index keys ["0"], ["1"], ... of arrays and strings. *)
Definition index_key (i : nat) : string :=
  NilEmpty.string_of_uint (Nat.to_uint i).

Fixpoint indexed {A} (f : A -> Value) (i : nat) (l : list A) : Props :=
  match l with
  | [] => []
  | x :: l' => (index_key i, f x) :: indexed f (S i) l'
  end.

Definition char_value (c : ascii) : Value := VString (String c EmptyString).

(** The own enumerable properties object spread copies from a value:
    nothing from [undefined], [null], booleans, numbers and functions; the
    indexed elements of an array; the indexed characters of a string. *)
Definition own_props (v : Value) : Props :=
  match v with
  | VObject props => props
  | VArray items => indexed (fun x => x) 0 items
  | VString s => indexed char_value 0 (list_ascii_of_string s)
  | _ => []
  end.

(** [{ ...target, ...source }]: the properties of [source] are set on the
    target one by one, in order. *)
Definition spread (target : Props) (source : Value) : Props :=
  fold_left (fun acc kv => set_prop (fst kv) (snd kv) acc) (own_props source) target.

(** What a [throw] carries, as far as the server looks at it
    ([error instanceof Error ? error.message : 'Unknown error']). *)
Inductive Thrown : Type :=
| ErrorObject (message : string)
| NonError (v : Value).

Definition error_text (e : Thrown) : string :=
  match e with
  | ErrorObject message => message
  | NonError _ => "Unknown error"
  end.

(** [v.anthropicApiKey]: a TypeError on [null] and [undefined], the own
    property of an object, [undefined] on everything else (no prototype
    defines that name). *)
Definition read_anthropicApiKey (v : Value) : Thrown + Value :=
  match v with
  | VNull =>
      inl (ErrorObject "Cannot read properties of null (reading 'anthropicApiKey')")
  | VUndefined =>
      inl (ErrorObject "Cannot read properties of undefined (reading 'anthropicApiKey')")
  | VObject props =>
      inr (match get_prop "anthropicApiKey" props with
           | Some k => k
           | None => VUndefined
           end)
  | _ => inr VUndefined
  end.

(** ** The message source: [generateMessages]

    The async generator over the module's [messageQueue].  Its control state
    is where the body is suspended; [requests] counts the [next()] calls of
    the consumer that are not answered yet (an async generator queues them);
    [delivered] records, oldest first, the values it has yielded. *)

Module MessageSource.

Inductive GeneratorState : Type :=
| SuspendedStart     (* created, body not entered *)
| SuspendedYield     (* at [yield message!], no request pending *)
| AwaitingTimer.     (* at [await new Promise(... setTimeout(resolve, 10))] *)

Record Source : Type := mkSource {
  messageQueue : list Value;
  generator : GeneratorState;
  requests : nat;
  delivered : list Value
}.

Definition initial : Source := mkSource [] SuspendedStart 0 [].

(** The body from a loop head, with [pending] requests to answer:
    [while (messageQueue.length > 0) { shift; yield }] answers one request
    per queued message and goes on while requests remain; on an empty
    queue the body leaves the inner loop and awaits the timer, the request
    still pending.  Result: the values yielded, the queue left, the
    requests left, the suspension point. *)
Fixpoint resume (pending : nat) (queue : list Value)
  : list Value * list Value * nat * GeneratorState :=
  match pending with
  | 0 => ([], queue, 0, SuspendedYield)
  | S pending' =>
      match queue with
      | [] => ([], [], pending, AwaitingTimer)
      | message :: queue' =>
          let '(out, rest, unanswered, point) := resume pending' queue' in
          (message :: out, rest, unanswered, point)
      end
  end.

Definition run_body (pending : nat) (s : Source) : Source :=
  let '(out, rest, unanswered, point) := resume pending (messageQueue s) in
  mkSource rest point unanswered (delivered s ++ out).

Inductive Event : Type :=
| Push (message : Value)   (* messageQueue.push(message) *)
| Next                     (* the consumer calls next() *)
| TimerFired.              (* the 10 ms timer resolves *)

Definition step (s : Source) (e : Event) : Source :=
  match e with
  | Push message =>
      mkSource (messageQueue s ++ [message]) (generator s) (requests s) (delivered s)
  | Next =>
      (* a request made while the body waits on the timer is queued; one
         made while it is suspended resumes it *)
      match generator s with
      | AwaitingTimer =>
          mkSource (messageQueue s) AwaitingTimer (S (requests s)) (delivered s)
      | _ => run_body (S (requests s)) s
      end
  | TimerFired =>
      match generator s with
      | AwaitingTimer => run_body (requests s) s
      | _ => s
      end
  end.

Definition run (trace : list Event) (s : Source) : Source :=
  fold_left step trace s.

(** The messages a trace appends, in the order it appends them. *)
Fixpoint pushed (trace : list Event) : list Value :=
  match trace with
  | [] => []
  | Push message :: trace' => message :: pushed trace'
  | _ :: trace' => pushed trace'
  end.

End MessageSource.

(** ** The server module: state, effects, events *)

Definition WebSocket : Type := nat.

(** What is written to a socket or a response: [Json v] is the text
    [JSON.stringify(v)], kept symbolic. *)
Inductive Payload : Type :=
| Json (v : Value)
| Text (s : string).

(** [WSOutputMessage], the four envelopes the server builds. *)
Inductive WSOutputMessage : Type :=
| OutConnected
| OutInfo (data : string)
| OutSdkMessage (data : Value)
| OutError (error : string).

Definition envelope (m : WSOutputMessage) : Value :=
  match m with
  | OutConnected => VObject [("type", VString "connected")]
  | OutInfo data => VObject [("type", VString "info"); ("data", VString data)]
  | OutSdkMessage data => VObject [("type", VString "sdk_message"); ("data", data)]
  | OutError error => VObject [("type", VString "error"); ("error", VString error)]
  end.

(** The stream object [query({ prompt: generateMessages(), options })]
    returns, identified by the options it was made with. *)
Record Query : Type := mkQuery { query_options : Props }.

Inductive Effect : Type :=
| WsSend (ws : WebSocket) (data : Payload)      (* ws.send(data) *)
| WsClose (ws : WebSocket)                      (* ws.close() *)
| SdkQuery (options : Props)                    (* query(...) returned a stream *)
| SdkInterrupt                                  (* activeStream.interrupt() *)
| ConsoleInfo (options : Props)
| ConsoleError (e : Thrown)
| HttpRespond (status : nat) (content_type : option string) (body : Payload).

(** What the message handler may do with what it is handed: the socket the
    frame came from and the stream behind [getActiveStream]. *)
Inductive HandlerEffect : Type :=
| Reply (data : Payload)
| CloseSocket
| Interrupt.

Definition handler_effect (ws : WebSocket) (h : HandlerEffect) : Effect :=
  match h with
  | Reply data => WsSend ws data
  | CloseSocket => WsClose ws
  | Interrupt => SdkInterrupt
  end.

(** What the module imports and reads from its process: the workspace
    directory [join(homedir(), WORKSPACE_DIR_NAME)], [process.env.PATH],
    the built-in [JSON.parse] ([None]: it throws a SyntaxError), the SDK's
    [query] ([query_throws options = Some e]: the call throws [e] instead of
    returning a stream) and [handleMessage] of [./message-handler], which
    is handed the socket, the frame, the queue (which it may mutate) and a
    getter of the active stream. *)
Record Runtime : Type := mkRuntime {
  workspaceDirectory : string;
  process_env_PATH : option string;
  JSON_parse : string -> option Value;
  query_throws : Props -> option Thrown;
  handleMessage :
    WebSocket -> string -> list Value -> option Query ->
    list Value * list HandlerEffect
}.

Record Server : Type := mkServer {
  activeConnection : option WebSocket;
  messageQueue : list Value;
  activeStream : option Query;
  queryConfig : Value;
  iterating : bool;             (* a [processMessages] call is in its [for await] *)
  listening : list WebSocket    (* sockets with 'message' and 'close' handlers *)
}.

Definition initial : Server :=
  mkServer None [] None (VObject []) false [].

Definition with_activeConnection (c : option WebSocket) (s : Server) : Server :=
  mkServer c (messageQueue s) (activeStream s) (queryConfig s) (iterating s) (listening s).

Definition with_messageQueue (q : list Value) (s : Server) : Server :=
  mkServer (activeConnection s) q (activeStream s) (queryConfig s) (iterating s) (listening s).

Definition with_queryConfig (v : Value) (s : Server) : Server :=
  mkServer (activeConnection s) (messageQueue s) (activeStream s) v (iterating s) (listening s).

Definition with_iterating (b : bool) (s : Server) : Server :=
  mkServer (activeConnection s) (messageQueue s) (activeStream s) (queryConfig s) b (listening s).

Definition with_listening (l : list WebSocket) (s : Server) : Server :=
  mkServer (activeConnection s) (messageQueue s) (activeStream s) (queryConfig s) (iterating s) l.

Definition start_stream (q : Query) (s : Server) : Server :=
  mkServer (activeConnection s) (messageQueue s) (Some q) (queryConfig s) true (listening s).

Record HttpRequest : Type := mkRequest {
  pathname : string;    (* new URL(req.url, ...).pathname *)
  method : string;
  body : string         (* the chunks of the request, concatenated *)
}.

Inductive Event : Type :=
| Connection (ws : WebSocket)                (* wss 'connection' *)
| Message (ws : WebSocket) (data : string)   (* ws 'message' *)
| Close (ws : WebSocket)                     (* ws 'close' *)
| StreamItem (message : Value)               (* the [for await] gets an item *)
| StreamError (e : Thrown)                   (* the [for await] throws *)
| StreamEnd                                  (* the stream is done *)
| Stderr (data : string)                     (* the SDK calls [options.stderr] *)
| Request (req : HttpRequest).               (* an HTTP request, read to its end *)

Section Handlers.

Variable rt : Runtime.

(** *** [processMessages] *)

(** The properties written before [...queryConfig]. *)
Definition default_options : Props :=
  [("permissionMode", VString "bypassPermissions");
   ("allowDangerouslySkipPermissions", VBool true);
   ("settingSources", VArray [VString "project"]);
   ("cwd", VString (workspaceDirectory rt));
   ("stderr", VStderrCallback)].

Definition path_value : Value :=
  match process_env_PATH rt with
  | Some p => VString p
  | None => VUndefined
  end.

(** [{ env: { PATH: process.env.PATH, ANTHROPIC_API_KEY: key } }] *)
Definition env_override (key : Value) : Value :=
  VObject [("env", VObject [("PATH", path_value); ("ANTHROPIC_API_KEY", key)])].

(** The object literal of lines 46-67.  [a && b] is [a] when [a] is falsy
    and [b] otherwise, and the result is spread last. *)
Definition build_options (config : Value) : Thrown + Props :=
  let merged := spread default_options config in
  match read_anthropicApiKey config with
  | inl e => inl e
  | inr key => inr (spread merged (if truthy key then env_override key else key))
  end.

(** [if (activeConnection) activeConnection.send(JSON.stringify(output))] *)
Definition send_if_active (s : Server) (output : WSOutputMessage) : list Effect :=
  match activeConnection s with
  | Some ws => [WsSend ws (Json (envelope output))]
  | None => []
  end.

(** The [catch] block of [processMessages]. *)
Definition on_caught (s : Server) (e : Thrown) : list Effect :=
  ConsoleError e :: send_if_active s (OutError (error_text e)).

(** [processMessages()] up to its first suspension: the options, the call
    of [query], the assignment of [activeStream], then the [for await]
    waits for the first item. *)
Definition processMessages (s : Server) : Server * list Effect :=
  match build_options (queryConfig s) with
  | inl e => (s, on_caught s e)
  | inr options =>
      match query_throws rt options with
      | Some e => (s, ConsoleInfo options :: on_caught s e)
      | None =>
          (start_stream (mkQuery options) s,
           [ConsoleInfo options; SdkQuery options])
      end
  end.

(** The [for await] loop, one event of the stream at a time. *)
Definition on_stream_item (s : Server) (message : Value) : Server * list Effect :=
  if iterating s then (s, send_if_active s (OutSdkMessage message)) else (s, []).

Definition on_stream_error (s : Server) (e : Thrown) : Server * list Effect :=
  if iterating s then (with_iterating false s, on_caught s e) else (s, []).

Definition on_stream_end (s : Server) : Server * list Effect :=
  if iterating s then (with_iterating false s, []) else (s, []).

(** The [stderr] option of line 51; the SDK can call it when the stream it
    was given to still has it under [stderr]. *)
Definition stderr_installed (s : Server) : bool :=
  match activeStream s with
  | Some q =>
      match get_prop "stderr" (query_options q) with
      | Some VStderrCallback => true
      | _ => false
      end
  | None => false
  end.

Definition on_stderr (s : Server) (data : string) : Server * list Effect :=
  if stderr_installed s then (s, send_if_active s (OutInfo data)) else (s, []).

(** *** The WebSocket server *)

Definition is_listening (ws : WebSocket) (s : Server) : bool :=
  existsb (Nat.eqb ws) (listening s).

(** [wss.on('connection', ws => ...)] *)
Definition on_connection (s : Server) (ws : WebSocket) : Server * list Effect :=
  match activeConnection s with
  | Some _ =>
      (s, [WsSend ws (Json (envelope (OutError "Server already has an active connection")));
           WsClose ws])
  | None =>
      let s1 := with_activeConnection (Some ws) s in
      let '(s2, started) :=
        match activeStream s1 with
        | None => processMessages s1
        | Some _ => (s1, [])
        end in
      (with_listening (ws :: listening s2) s2,
       started ++ [WsSend ws (Json (envelope OutConnected))])
  end.

(** [ws.on('message', ...)] *)
Definition on_message (s : Server) (ws : WebSocket) (data : string)
  : Server * list Effect :=
  if is_listening ws s then
    let '(queue, done) := handleMessage rt ws data (messageQueue s) (activeStream s) in
    (with_messageQueue queue s, map (handler_effect ws) done)
  else (s, []).

(** [ws.on('close', ...)]; a closed socket raises no further events. *)
Definition on_close (s : Server) (ws : WebSocket) : Server * list Effect :=
  if is_listening ws s then
    let s1 :=
      match activeConnection s with
      | Some active => if Nat.eqb active ws then with_activeConnection None s else s
      | None => s
      end in
    (with_listening (filter (fun w => negb (Nat.eqb w ws)) (listening s1)) s1, [])
  else (s, []).

(** *** The HTTP server *)

Definition json_header : option string := Some "application/json".

Definition on_request (s : Server) (req : HttpRequest) : Server * list Effect :=
  if (pathname req =? "/config") && (method req =? "POST") then
    match JSON_parse rt (body req) with
    | Some config =>
        (with_queryConfig config s,
         [HttpRespond 200 json_header
            (Json (VObject [("success", VBool true); ("config", config)]))])
    | None =>
        (s, [HttpRespond 400 json_header
               (Json (VObject [("error", VString "Invalid JSON")]))])
    end
  else if (pathname req =? "/config") && (method req =? "GET") then
    (s, [HttpRespond 200 json_header (Json (VObject [("config", queryConfig s)]))])
  else
    (s, [HttpRespond 404 None (Text "Not Found")]).

(** *** The event loop *)

Definition step (s : Server) (e : Event) : Server * list Effect :=
  match e with
  | Connection ws => on_connection s ws
  | Message ws data => on_message s ws data
  | Close ws => on_close s ws
  | StreamItem message => on_stream_item s message
  | StreamError err => on_stream_error s err
  | StreamEnd => on_stream_end s
  | Stderr data => on_stderr s data
  | Request req => on_request s req
  end.

(** The state after a trace of events and every effect performed on the
    way, in order. *)
Fixpoint run (trace : list Event) (s : Server) : Server * list Effect :=
  match trace with
  | [] => (s, [])
  | e :: trace' =>
      let '(s1, done) := step s e in
      let '(s2, done') := run trace' s1 in
      (s2, done ++ done')
  end.

End Handlers.

Definition post_config (text : string) : Event :=
  Request (mkRequest "/config" "POST" text).

Definition get_config : Event :=
  Request (mkRequest "/config" "GET" EmptyString).

Definition is_connection (e : Event) : bool :=
  match e with
  | Connection _ => true
  | _ => false
  end.

(** An item of the agent's main stream or a line of its diagnostic output. *)
Definition is_agent_output (e : Event) : bool :=
  match e with
  | StreamItem _ | Stderr _ => true
  | _ => false
  end.

Definition is_query (f : Effect) : bool :=
  match f with
  | SdkQuery _ => true
  | _ => false
  end.

(** How many times [query] returned a stream. *)
Definition streams_created (done : list Effect) : nat :=
  List.length (filter is_query done).

Definition state_after (rt : Runtime) (trace : list Event) (s : Server) : Server :=
  fst (run rt trace s).

Definition effects_of (rt : Runtime) (trace : list Event) (s : Server) : list Effect :=
  snd (run rt trace s).

(** A [POST /config] whose body parses: the one event that assigns
    [queryConfig]. *)
Definition replaces_config (rt : Runtime) (e : Event) : bool :=
  match e with
  | Request req =>
      (pathname req =? "/config") && (method req =? "POST")
      && match JSON_parse rt (body req) with Some _ => true | None => false end
  | _ => false
  end.

Definition keeps_config (rt : Runtime) (trace : list Event) : bool :=
  forallb (fun e => negb (replaces_config rt e)) trace.

Definition no_connection (trace : list Event) : bool :=
  forallb (fun e => negb (is_connection e)) trace.

(** ** A reference runtime

    A concrete runtime to run the model on.  Its [parse] reads a fragment
    of JSON the way [JSON.parse] does and rejects every other text: the
    literals, strings of printable characters without escapes, integers
    below 2^53 written without fraction or exponent, arrays, and objects
    whose keys do not start with a digit (so that property order is
    insertion order).  Its [query] always returns a stream. *)

Module Reference.

Local Open Scope char_scope.

Definition is_space (c : ascii) : bool :=
  match c with
  | " " | "009" | "010" | "013" => true
  | _ => false
  end.

Fixpoint skip_space (cs : list ascii) : list ascii :=
  match cs with
  | c :: cs' => if is_space c then skip_space cs' else cs
  | [] => []
  end.

Definition digit_of (c : ascii) : option Z :=
  let n := Z.of_nat (nat_of_ascii c) in
  if ((48 <=? n) && (n <=? 57))%Z then Some (n - 48)%Z else None.

(** The digits at the head of [cs], as a number, and what follows. *)
Fixpoint read_digits (acc : Z) (cs : list ascii) : Z * list ascii :=
  match cs with
  | c :: cs' =>
      match digit_of c with
      | Some d => read_digits (10 * acc + d) cs'
      | None => (acc, cs)
      end
  | [] => (acc, [])
  end.

(** The binary64 of an integer below 2^53 (exact). *)
Definition number_of_Z (negative : bool) (n : Z) : spec_float :=
  if (n =? 0)%Z then S754_zero negative
  else S754_finite negative
         (Z.to_pos (n * 2 ^ (52 - Z.log2 n))) (Z.log2 n - 52).

(** An integer literal: ["0"], or a non-zero digit and more digits; no
    fraction, no exponent. *)
Definition read_integer (negative : bool) (cs : list ascii)
  : option (Value * list ascii) :=
  match cs with
  | c :: cs' =>
      match digit_of c with
      | Some d =>
          let '(n, rest) := if (d =? 0)%Z then (0%Z, cs') else read_digits d cs' in
          match rest with
          | "." :: _ | "e" :: _ | "E" :: _ => None
          | r :: _ =>
              match digit_of r with
              | Some _ => None
              | None => if (n <? 2 ^ 53)%Z
                        then Some (VNumber (number_of_Z negative n), rest) else None
              end
          | [] => if (n <? 2 ^ 53)%Z
                  then Some (VNumber (number_of_Z negative n), rest) else None
          end
      | None => None
      end
  | [] => None
  end.

(** The characters of a string literal after its opening quote. *)
Fixpoint read_string (cs : list ascii) : option (string * list ascii) :=
  match cs with
  | "034" :: rest => Some (EmptyString, rest)
  | "\" :: _ => None
  | c :: cs' =>
      if (nat_of_ascii c <? 32)%nat || (126 <? nat_of_ascii c)%nat then None
      else match read_string cs' with
           | Some (s, rest) => Some (String c s, rest)
           | None => None
           end
  | [] => None
  end.

Definition plain_key (k : string) : bool :=
  match k with
  | String c _ => match digit_of c with Some _ => false | None => true end
  | EmptyString => true
  end.

Fixpoint read_value (fuel : nat) (cs : list ascii) : option (Value * list ascii) :=
  match fuel with
  | 0%nat => None
  | S fuel' =>
      match skip_space cs with
      | "n" :: "u" :: "l" :: "l" :: rest => Some (VNull, rest)
      | "t" :: "r" :: "u" :: "e" :: rest => Some (VBool true, rest)
      | "f" :: "a" :: "l" :: "s" :: "e" :: rest => Some (VBool false, rest)
      | "034" :: rest =>
          match read_string rest with
          | Some (s, rest') => Some (VString s, rest')
          | None => None
          end
      | "-" :: rest => read_integer true rest
      | "[" :: rest =>
          match skip_space rest with
          | "]" :: rest' => Some (VArray [], rest')
          | _ => read_elements fuel' rest []
          end
      | "{" :: rest =>
          match skip_space rest with
          | "}" :: rest' => Some (VObject [], rest')
          | _ => read_members fuel' rest []
          end
      | rest => read_integer false rest
      end
  end
with read_elements (fuel : nat) (cs : list ascii) (seen : list Value)
  : option (Value * list ascii) :=
  match fuel with
  | 0%nat => None
  | S fuel' =>
      match read_value fuel' cs with
      | Some (v, rest) =>
          match skip_space rest with
          | "," :: rest' => read_elements fuel' rest' (seen ++ [v])
          | "]" :: rest' => Some (VArray (seen ++ [v]), rest')
          | _ => None
          end
      | None => None
      end
  end
with read_members (fuel : nat) (cs : list ascii) (seen : Props)
  : option (Value * list ascii) :=
  match fuel with
  | 0%nat => None
  | S fuel' =>
      match skip_space cs with
      | "034" :: rest =>
          match read_string rest with
          | Some (k, rest1) =>
              match skip_space rest1 with
              | ":" :: rest2 =>
                  match read_value fuel' rest2 with
                  | Some (v, rest3) =>
                      if plain_key k then
                        match skip_space rest3 with
                        | "," :: rest4 => read_members fuel' rest4 (set_prop k v seen)
                        | "}" :: rest4 => Some (VObject (set_prop k v seen), rest4)
                        | _ => None
                        end
                      else None
                  | None => None
                  end
              | _ => None
              end
          | None => None
          end
      | _ => None
      end
  end.

Definition parse (text : string) : option Value :=
  let cs := list_ascii_of_string text in
  match read_value (2 * List.length cs + 2) cs with
  | Some (v, rest) =>
      match skip_space rest with
      | [] => Some v
      | _ => None
      end
  | None => None
  end.

(** Modelled from the spec: [handleMessage] of [./message-handler] is not
    among the sources.  The specification's dispatch: a frame that does not
    parse is answered with an [error] envelope and otherwise ignored; an
    interrupt command interrupts the active stream when there is one and is
    a no-op otherwise; a user message is appended to the queue, with no
    acknowledgment. *)
Definition handle (ws : WebSocket) (data : string) (queue : list Value)
    (stream : option Query) : list Value * list HandlerEffect :=
  match parse data with
  | Some (VObject props) =>
      match get_prop "type"%string props with
      | Some (VString "interrupt"%string) =>
          (queue, match stream with Some _ => [Interrupt] | None => [] end)
      | _ => (queue ++ [VObject props], [])
      end
  | Some message => (queue ++ [message], [])
  | None => (queue, [Reply (Json (envelope (OutError "Invalid JSON"%string)))])
  end.

Definition runtime : Runtime :=
  mkRuntime "/home/user/agent-workspace"%string
    (Some "/usr/local/bin:/usr/bin:/bin"%string)
    parse (fun _ => None) handle.

End Reference.

(** A JSON string literal: [text] between double quotes. *)
Definition quoted (text : string) : string :=
  String (ascii_of_nat 34) (text ++ String (ascii_of_nat 34) EmptyString)%string.

(** The text [{"cwd": "/tmp/x"}]. *)
Definition cwd_tmp_x : string :=
  ("{" ++ quoted "cwd" ++ ": " ++ quoted "/tmp/x" ++ "}")%string.

(** The text [{"env": {"FOO": "bar"}}]. *)
Definition env_foo_bar : string :=
  ("{" ++ quoted "env" ++ ": {" ++ quoted "FOO" ++ ": " ++ quoted "bar" ++ "}}")%string.

(** The value of the own property [k] of [v] that a spread of [v] leaves in
    its target: the last entry for [k]. *)
Definition own_property (k : string) (v : Value) : option Value :=
  get_prop k (rev (own_props v)).

(** ** Vocabulary of the further properties *)

Definition is_message (e : Event) : bool :=
  match e with
  | Message _ _ => true
  | _ => false
  end.



(** The envelope an event of the agent is wrapped in. *)
Definition forwarded (e : Event) : list WSOutputMessage :=
  match e with
  | StreamItem message => [OutSdkMessage message]
  | Stderr data => [OutInfo data]
  | _ => []
  end.

(** The sends that forward a trace of agent events to [ws], in order. *)
Definition forward_to (ws : WebSocket) (trace : list Event) : list Effect :=
  map (fun output => WsSend ws (Json (envelope output))) (flat_map forwarded trace).

(** What makes [processMessages] end in its [catch] before the loop: the
    options cannot be built, or [query] throws. *)
Definition creation_error (rt : Runtime) (config : Value) : option Thrown :=
  match build_options rt config with
  | inl e => Some e
  | inr options => query_throws rt options
  end.

(** The sockets that should have handlers: the active connection alone. *)
Definition active_listeners (s : Server) : list WebSocket :=
  match activeConnection s with
  | Some ws => [ws]
  | None => []
  end.

(** The [next()] calls of a trace of the message source. *)
Definition requested (trace : list MessageSource.Event) : nat :=
  List.length
    (filter (fun e => match e with MessageSource.Next => true | _ => false end) trace).

(** * Properties *)

(** ** Worked runs *)

Example source_run :
  let a := VString "a" in
  let b := VString "b" in
  let c := VString "c" in
  MessageSource.run
    [MessageSource.Push a; MessageSource.Next; MessageSource.Next;
     MessageSource.Push b; MessageSource.Push c; MessageSource.TimerFired;
     MessageSource.Next]
    MessageSource.initial
  = MessageSource.mkSource [] MessageSource.SuspendedYield 0 [a; b; c].
Proof. reflexivity. Qed.

Example source_waits_on_empty_queue :
  MessageSource.run [MessageSource.Next; MessageSource.TimerFired]
    MessageSource.initial
  = MessageSource.mkSource [] MessageSource.AwaitingTimer 1 [].
Proof. reflexivity. Qed.

Example parse_cwd :
  Reference.parse cwd_tmp_x = Some (VObject [("cwd", VString "/tmp/x")]).
Proof. reflexivity. Qed.

Example parse_rejects_unclosed_object : Reference.parse "{" = None.
Proof. reflexivity. Qed.

Example default_options_of_empty_config (rt : Runtime) :
  build_options rt (VObject []) = inr (default_options rt).
Proof. reflexivity. Qed.

(** With [null] stored as the Configuration, reading [anthropicApiKey]
    throws inside the [try]: the first connection gets the error envelope,
    then [connected], and no stream is assigned. *)
Example first_connection_with_null_config :
  run Reference.runtime [post_config "null"; Connection 1] initial
  = (mkServer (Some 1) [] None VNull false [1],
     [HttpRespond 200 json_header
        (Json (VObject [("success", VBool true); ("config", VNull)]));
      ConsoleError
        (ErrorObject "Cannot read properties of null (reading 'anthropicApiKey')");
      WsSend 1 (Json (envelope
        (OutError "Cannot read properties of null (reading 'anthropicApiKey')")));
      WsSend 1 (Json (envelope OutConnected))]).
Proof. reflexivity. Qed.

Example relay_and_reconnect :
  effects_of Reference.runtime
    [Connection 1; StreamItem (VString "one"); Close 1;
     StreamItem (VString "two"); Connection 2; StreamItem (VString "three")]
    initial
  = [ConsoleInfo (default_options Reference.runtime);
     SdkQuery (default_options Reference.runtime);
     WsSend 1 (Json (envelope OutConnected));
     WsSend 1 (Json (envelope (OutSdkMessage (VString "one"))));
     WsSend 2 (Json (envelope OutConnected));
     WsSend 2 (Json (envelope (OutSdkMessage (VString "three"))))].
Proof. reflexivity. Qed.

(** ** Objects and spread *)

Lemma get_set_prop (k k' : string) (v : Value) (o : Props) :
  get_prop k (set_prop k' v o) = if k' =? k then Some v else get_prop k o.
Proof.
  induction o as [|[k0 v0] o IH]; simpl.
  - reflexivity.
  - destruct (k0 =? k') eqn:E0; simpl.
    + apply String.eqb_eq in E0; subst k0.
      destruct (k' =? k); reflexivity.
    + rewrite IH. destruct (k0 =? k) eqn:E1; [|reflexivity].
      apply String.eqb_eq in E1; subst k0.
      rewrite String.eqb_sym, E0. reflexivity.
Qed.

Lemma get_fold_set (k : string) (source target : Props) :
  get_prop k (fold_left (fun acc kv => set_prop (fst kv) (snd kv) acc) source target)
  = match get_prop k (rev source) with
    | Some v => Some v
    | None => get_prop k target
    end.
Proof.
  induction source as [|[k0 v0] source IH] using rev_ind; simpl.
  - reflexivity.
  - rewrite fold_left_app, rev_app_distr. simpl.
    rewrite get_set_prop, IH.
    destruct (k0 =? k); reflexivity.
Qed.

Lemma get_spread (k : string) (target : Props) (source : Value) :
  get_prop k (spread target source)
  = match own_property k source with
    | Some v => Some v
    | None => get_prop k target
    end.
Proof. unfold spread, own_property. apply get_fold_set. Qed.

Lemma spread_falsy (target : Props) (key : Value) :
  truthy key = false -> spread target key = target.
Proof.
  destruct key as [| |b|n|s|items|props|]; simpl; try discriminate;
    try reflexivity.
  destruct s; simpl; [reflexivity|discriminate].
Qed.

(** ** The options of the agent session *)

Lemma build_options_truthy (rt : Runtime) (config key : Value) :
  read_anthropicApiKey config = inr key ->
  truthy key = true ->
  build_options rt config
  = inr (spread (spread (default_options rt) config) (env_override rt key)).
Proof.
  intros Hread Htruthy. unfold build_options. rewrite Hread, Htruthy. reflexivity.
Qed.

Lemma build_options_falsy (rt : Runtime) (config key : Value) :
  read_anthropicApiKey config = inr key ->
  truthy key = false ->
  build_options rt config = inr (spread (default_options rt) config).
Proof.
  intros Hread Hfalsy. unfold build_options. rewrite Hread, Hfalsy.
  rewrite (spread_falsy _ _ Hfalsy). reflexivity.
Qed.

Lemma env_after_override (rt : Runtime) (target : Props) (key : Value) :
  get_prop "env" (spread target (env_override rt key))
  = Some (VObject [("PATH", path_value rt); ("ANTHROPIC_API_KEY", key)]).
Proof. rewrite get_spread. reflexivity. Qed.

(** C8, as stated, fails: a Configuration without a credential but with an
    [env] entry of its own, stored through [POST /config], reaches the
    options of the stream the first connection creates with that [env]; the
    options do carry an environment override. *)
Lemma env_without_credential_counterexample :
  let config := VObject [("env", VObject [("FOO", VString "bar")])] in
  let s := state_after Reference.runtime [post_config env_foo_bar; Connection 1] initial in
  queryConfig s = config /\
  read_anthropicApiKey config = inr VUndefined /\
  exists options,
    build_options Reference.runtime config = inr options /\
    activeStream s = Some (mkQuery options) /\
    get_prop "env" options = Some (VObject [("FOO", VString "bar")]).
Proof.
  split; [reflexivity|]. split; [reflexivity|].
  eexists. split; [reflexivity|]. split; reflexivity.
Qed.

(** C8 (amended): when the options are built from a Configuration whose
    [anthropicApiKey] is a truthy value, their [env] holds that credential
    together with the inherited PATH; when the Configuration supplies no
    such credential, the credential rule adds nothing: the options are the
    defaults overridden by the Configuration, and they have an [env] only
    if the Configuration itself has an [env] entry, and then that entry. *)
Theorem credential_rule (rt : Runtime) (config key : Value) :
  read_anthropicApiKey config = inr key ->
  exists options,
    build_options rt config = inr options /\
    (truthy key = true ->
     get_prop "env" options
     = Some (VObject [("PATH", path_value rt); ("ANTHROPIC_API_KEY", key)])) /\
    (truthy key = false ->
     options = spread (default_options rt) config /\
     get_prop "env" options = own_property "env" config).
Proof.
  intros Hread. destruct (truthy key) eqn:Htruthy.
  - eexists. split; [apply (build_options_truthy _ _ _ Hread Htruthy)|].
    split; [intros _; apply env_after_override|discriminate].
  - eexists. split; [apply (build_options_falsy _ _ _ Hread Htruthy)|].
    split; [discriminate|]. intros _. split; [reflexivity|].
    rewrite get_spread. destruct (own_property "env" config); reflexivity.
Qed.

Lemma credential_rule_witness :
  let config := VObject [("anthropicApiKey", VString "sk-test")] in
  read_anthropicApiKey config = inr (VString "sk-test") /\
  exists options,
    build_options Reference.runtime config = inr options /\
    (truthy (VString "sk-test") = true ->
     get_prop "env" options
     = Some (VObject [("PATH", path_value Reference.runtime);
                      ("ANTHROPIC_API_KEY", VString "sk-test")])) /\
    (truthy (VString "sk-test") = false ->
     options = spread (default_options Reference.runtime) config /\
     get_prop "env" options = own_property "env" config).
Proof.
  split; [reflexivity|].
  apply (credential_rule Reference.runtime
           (VObject [("anthropicApiKey", VString "sk-test")]) (VString "sk-test")).
  reflexivity.
Defined.

(** C9: when the stored Configuration is an object whose [anthropicApiKey]
    is a truthy value, building the options succeeds and their [env] is the
    object with exactly the two entries PATH (the server's own) and
    ANTHROPIC_API_KEY (the credential), whatever the Configuration holds
    under [env]; these are the options the stream is created with. *)
Theorem credential_env_exactly_path_and_key
    (rt : Runtime) (s : Server) (props : Props) (key : Value) :
  queryConfig s = VObject props ->
  get_prop "anthropicApiKey" props = Some key ->
  truthy key = true ->
  exists options,
    build_options rt (queryConfig s) = inr options /\
    get_prop "env" options
    = Some (VObject [("PATH", path_value rt); ("ANTHROPIC_API_KEY", key)]) /\
    (query_throws rt options = None ->
     processMessages rt s
     = (start_stream (mkQuery options) s, [ConsoleInfo options; SdkQuery options])).
Proof.
  intros Hconfig Hkey Htruthy.
  assert (Hread : read_anthropicApiKey (queryConfig s) = inr key).
  { rewrite Hconfig. simpl. rewrite Hkey. reflexivity. }
  eexists. split; [apply (build_options_truthy _ _ _ Hread Htruthy)|].
  split; [apply env_after_override|].
  intros Hquery. unfold processMessages.
  rewrite (build_options_truthy _ _ _ Hread Htruthy), Hquery. reflexivity.
Qed.

Lemma credential_env_exactly_path_and_key_witness :
  let props := [("env", VObject [("HOME", VString "/root")]);
                ("anthropicApiKey", VString "sk-test")] in
  let s := with_queryConfig (VObject props) initial in
  exists options,
    build_options Reference.runtime (queryConfig s) = inr options /\
    get_prop "env" options
    = Some (VObject [("PATH", path_value Reference.runtime);
                     ("ANTHROPIC_API_KEY", VString "sk-test")]) /\
    (query_throws Reference.runtime options = None ->
     processMessages Reference.runtime s
     = (start_stream (mkQuery options) s, [ConsoleInfo options; SdkQuery options])).
Proof.
  apply (credential_env_exactly_path_and_key Reference.runtime
           (with_queryConfig
              (VObject [("env", VObject [("HOME", VString "/root")]);
                        ("anthropicApiKey", VString "sk-test")]) initial)
           [("env", VObject [("HOME", VString "/root")]);
            ("anthropicApiKey", VString "sk-test")]
           (VString "sk-test")); reflexivity.
Defined.

(** ** The message source *)

Module MessageSourceFacts.
Import MessageSource.

Lemma resume_firstn_skipn (pending : nat) (queue : list Value) :
  resume pending queue
  = (firstn pending queue, skipn pending queue, pending - List.length queue,
     if (pending <=? List.length queue)%nat then SuspendedYield else AwaitingTimer).
Proof.
  revert queue. induction pending as [|pending IH]; intros queue.
  - reflexivity.
  - destruct queue as [|message queue]; [reflexivity|].
    cbn [resume]. rewrite IH. reflexivity.
Qed.

Lemma run_body_fields (pending : nat) (s : Source) :
  run_body pending s
  = mkSource (skipn pending (messageQueue s))
      (if (pending <=? List.length (messageQueue s))%nat
       then SuspendedYield else AwaitingTimer)
      (pending - List.length (messageQueue s))
      (delivered s ++ firstn pending (messageQueue s)).
Proof. unfold run_body. rewrite resume_firstn_skipn. reflexivity. Qed.

(** Running the body moves messages from the head of the queue to the end
    of what was delivered, and nothing else. *)
Lemma run_body_conserves (pending : nat) (s : Source) :
  delivered (run_body pending s) ++ messageQueue (run_body pending s)
  = delivered s ++ messageQueue s.
Proof.
  rewrite run_body_fields. simpl.
  rewrite <- app_assoc, firstn_skipn. reflexivity.
Qed.

Lemma step_conserves (s : Source) (e : Event) :
  delivered (step s e) ++ messageQueue (step s e)
  = delivered s ++ messageQueue s ++ pushed [e].
Proof.
  destruct e; simpl; rewrite ?app_nil_r.
  - reflexivity.
  - destruct (generator s); simpl; auto using run_body_conserves.
  - destruct (generator s); simpl; auto using run_body_conserves.
Qed.

Lemma pushed_app (t1 t2 : list Event) : pushed (t1 ++ t2) = pushed t1 ++ pushed t2.
Proof.
  induction t1 as [|e t1 IH]; [reflexivity|].
  destruct e; simpl; rewrite IH; reflexivity.
Qed.

Lemma run_conserves (trace : list Event) (s : Source) :
  delivered (run trace s) ++ messageQueue (run trace s)
  = delivered s ++ messageQueue s ++ pushed trace.
Proof.
  revert s. induction trace as [|e trace IH]; intros s.
  - simpl. rewrite app_nil_r. reflexivity.
  - change (run (e :: trace) s) with (run trace (step s e)).
    rewrite IH, app_assoc, step_conserves.
    change (pushed (e :: trace)) with (pushed ([e] ++ trace)).
    rewrite pushed_app, <- !app_assoc. reflexivity.
Qed.

Lemma pushed_pulls (n : nat) : pushed (repeat Next n ++ [TimerFired]) = [].
Proof. induction n as [|n IH]; [reflexivity|exact IH]. Qed.

(** Enough requests and one timer tick empty the queue: the requests
    already waiting on the timer count too. *)
Lemma pulls_empty_queue (n : nat) (s : Source) :
  List.length (messageQueue s)
  <= n + match generator s with AwaitingTimer => requests s | _ => 0 end ->
  messageQueue (run (repeat Next n ++ [TimerFired]) s) = [].
Proof.
  revert s. induction n as [|n IH]; intros s Hlen.
  - simpl. destruct (generator s) eqn:Hgen; simpl in Hlen.
    + destruct (messageQueue s); [reflexivity|simpl in Hlen; lia].
    + destruct (messageQueue s); [reflexivity|simpl in Hlen; lia].
    + rewrite run_body_fields. simpl. apply skipn_all2. exact Hlen.
  - change (run (repeat Next (S n) ++ [TimerFired]) s)
      with (run (repeat Next n ++ [TimerFired]) (step s Next)).
    apply IH. cbn [step].
    destruct (generator s) eqn:Hgen; cbn [messageQueue generator requests].
    + rewrite run_body_fields. cbn [messageQueue generator requests].
      rewrite length_skipn.
      destruct (S (requests s) <=? List.length (messageQueue s))%nat; lia.
    + rewrite run_body_fields. cbn [messageQueue generator requests].
      rewrite length_skipn.
      destruct (S (requests s) <=? List.length (messageQueue s))%nat; lia.
    + lia.
Qed.

End MessageSourceFacts.

(** C1: whatever the interleaving of appends to the queue, requests of the
    consumer and timer ticks, the values the generator has yielded followed
    by the values still queued are exactly the appended messages in the
    order they were appended (nothing repeated, skipped or reordered); and
    once the consumer has asked for as many values as are queued and the
    timer has fired, the queue is empty and every appended message has been
    yielded. *)
Theorem message_source_fifo (trace : list MessageSource.Event) :
  let s := MessageSource.run trace MessageSource.initial in
  let s' :=
    MessageSource.run
      (repeat MessageSource.Next (List.length (MessageSource.messageQueue s))
       ++ [MessageSource.TimerFired]) s in
  MessageSource.delivered s ++ MessageSource.messageQueue s
  = MessageSource.pushed trace /\
  MessageSource.messageQueue s' = [] /\
  MessageSource.delivered s' = MessageSource.pushed trace.
Proof.
  intros s s'.
  assert (Hs : MessageSource.delivered s ++ MessageSource.messageQueue s
               = MessageSource.pushed trace).
  { unfold s. rewrite MessageSourceFacts.run_conserves. reflexivity. }
  assert (Hempty : MessageSource.messageQueue s' = []).
  { unfold s'. apply MessageSourceFacts.pulls_empty_queue. lia. }
  split; [exact Hs|]. split; [exact Hempty|].
  pose proof (MessageSourceFacts.run_conserves
                (repeat MessageSource.Next
                   (List.length (MessageSource.messageQueue s))
                 ++ [MessageSource.TimerFired]) s) as Hrun.
  fold s' in Hrun.
  rewrite Hempty, MessageSourceFacts.pushed_pulls, !app_nil_r in Hrun.
  rewrite Hrun. exact Hs.
Qed.

(** ** Traces of the server *)

Ltac finish := repeat split; try reflexivity; auto; try (intros; congruence).

Section Traces.

Variable rt : Runtime.

Lemma state_after_cons (e : Event) (trace : list Event) (s : Server) :
  state_after rt (e :: trace) s = state_after rt trace (fst (step rt s e)).
Proof.
  unfold state_after. simpl. destruct (step rt s e) as [s1 done]. simpl.
  destruct (run rt trace s1). reflexivity.
Qed.

Lemma effects_of_cons (e : Event) (trace : list Event) (s : Server) :
  effects_of rt (e :: trace) s
  = snd (step rt s e) ++ effects_of rt trace (fst (step rt s e)).
Proof.
  unfold effects_of. simpl. destruct (step rt s e) as [s1 done]. simpl.
  destruct (run rt trace s1). reflexivity.
Qed.

Lemma run_pair (trace : list Event) (s : Server) :
  run rt trace s = (state_after rt trace s, effects_of rt trace s).
Proof. unfold state_after, effects_of. destruct (run rt trace s); reflexivity. Qed.

Lemma state_after_app (t1 t2 : list Event) (s : Server) :
  state_after rt (t1 ++ t2) s = state_after rt t2 (state_after rt t1 s).
Proof.
  revert s. induction t1 as [|e t1 IH]; intros s; [reflexivity|].
  rewrite <- app_comm_cons, !state_after_cons. apply IH.
Qed.

Lemma effects_of_app (t1 t2 : list Event) (s : Server) :
  effects_of rt (t1 ++ t2) s
  = effects_of rt t1 s ++ effects_of rt t2 (state_after rt t1 s).
Proof.
  revert s. induction t1 as [|e t1 IH]; intros s; [reflexivity|].
  rewrite <- app_comm_cons, !effects_of_cons, state_after_cons, IH.
  apply app_assoc.
Qed.

Lemma streams_created_app (d1 d2 : list Effect) :
  streams_created (d1 ++ d2) = streams_created d1 + streams_created d2.
Proof. unfold streams_created. rewrite filter_app, length_app. reflexivity. Qed.

Lemma streams_created_handler (ws : WebSocket) (done : list HandlerEffect) :
  streams_created (map (handler_effect ws) done) = 0.
Proof.
  induction done as [|h done IH]; [reflexivity|].
  destruct h; exact IH.
Qed.

Lemma streams_created_send (s : Server) (output : WSOutputMessage) :
  streams_created (send_if_active s output) = 0.
Proof. unfold send_if_active. destruct (activeConnection s); reflexivity. Qed.

Lemma streams_created_caught (s : Server) (e : Thrown) :
  streams_created (on_caught s e) = 0.
Proof. unfold on_caught. apply (streams_created_send s). Qed.

(** *** The stream reference is assigned once *)

(** [processMessages] either fails and leaves the state as it is, or
    assigns the stream and enters the loop. *)
Lemma processMessages_cases (s : Server) :
  (fst (processMessages rt s) = s /\
   streams_created (snd (processMessages rt s)) = 0) \/
  (exists options,
      build_options rt (queryConfig s) = inr options /\
      query_throws rt options = None /\
      processMessages rt s
      = (start_stream (mkQuery options) s, [ConsoleInfo options; SdkQuery options])).
Proof.
  unfold processMessages.
  destruct (build_options rt (queryConfig s)) as [e|options].
  - left. split; [reflexivity|apply streams_created_caught].
  - destruct (query_throws rt options) as [e|] eqn:Hquery.
    + left. split; [reflexivity|apply streams_created_caught].
    + right. exists options. auto.
Qed.

Lemma step_with_stream (s : Server) (e : Event) (q : Query) :
  activeStream s = Some q ->
  activeStream (fst (step rt s e)) = Some q /\
  streams_created (snd (step rt s e)) = 0 /\
  (iterating s = false -> iterating (fst (step rt s e)) = false).
Proof.
  intros Hstream. destruct e as [ws|ws data|ws|message|err| |data|req]; simpl.
  - unfold on_connection. destruct (activeConnection s); simpl; [finish|].
    rewrite Hstream. simpl. finish.
  - unfold on_message. destruct (is_listening ws s); simpl; [|finish].
    destruct (handleMessage rt ws data (messageQueue s) (activeStream s))
      as [queue done]. simpl.
    rewrite streams_created_handler. finish.
  - unfold on_close. destruct (is_listening ws s); simpl; [|finish].
    destruct (activeConnection s) as [active|]; simpl; [|finish].
    destruct (Nat.eqb active ws); simpl; finish.
  - unfold on_stream_item. destruct (iterating s) eqn:Hloop; cbn [fst snd];
      rewrite ?streams_created_send, ?streams_created_caught; finish.
  - unfold on_stream_error. destruct (iterating s) eqn:Hloop; cbn [fst snd];
      rewrite ?streams_created_send, ?streams_created_caught; finish.
  - unfold on_stream_end. destruct (iterating s) eqn:Hloop; simpl; finish.
  - unfold on_stderr. destruct (stderr_installed s); cbn [fst snd];
      rewrite ?streams_created_send; finish.
  - unfold on_request.
    destruct ((pathname req =? "/config") && (method req =? "POST")).
    + destruct (JSON_parse rt (body req)); simpl; finish.
    + destruct ((pathname req =? "/config") && (method req =? "GET")); simpl; finish.
Qed.

Lemma run_with_stream (trace : list Event) (s : Server) (q : Query) :
  activeStream s = Some q ->
  activeStream (state_after rt trace s) = Some q /\
  streams_created (effects_of rt trace s) = 0 /\
  (iterating s = false -> iterating (state_after rt trace s) = false).
Proof.
  revert s. induction trace as [|e trace IH]; intros s Hstream.
  - auto.
  - rewrite state_after_cons, effects_of_cons, streams_created_app.
    destruct (step_with_stream s e q Hstream) as (Hq & Hnone & Hloop).
    destruct (IH _ Hq) as (Hq' & Hnone' & Hloop').
    rewrite Hnone, Hnone'. auto.
Qed.

Lemma step_without_stream (s : Server) (e : Event) :
  activeStream s = None ->
  (activeStream (fst (step rt s e)) = None /\
   streams_created (snd (step rt s e)) = 0) \/
  (exists q, activeStream (fst (step rt s e)) = Some q /\
             streams_created (snd (step rt s e)) = 1).
Proof.
  intros Hstream. destruct e as [ws|ws data|ws|message|err| |data|req]; simpl.
  - unfold on_connection. destruct (activeConnection s) eqn:Hactive.
    + left. finish.
    + cbn [activeStream with_activeConnection]. rewrite Hstream.
      destruct (processMessages_cases (with_activeConnection (Some ws) s))
        as [[Hsame Hnone]|(options & _ & _ & Hstart)].
      * left. destruct (processMessages rt (with_activeConnection (Some ws) s))
          as [s2 started]. simpl in Hsame, Hnone. subst s2.
        cbn [fst snd]. rewrite streams_created_app, Hnone. finish.
      * right. rewrite Hstart. exists (mkQuery options). finish.
  - left. unfold on_message. destruct (is_listening ws s); simpl; [|finish].
    destruct (handleMessage rt ws data (messageQueue s) (activeStream s))
      as [queue done]. simpl.
    rewrite streams_created_handler. finish.
  - left. unfold on_close. destruct (is_listening ws s); simpl; [|finish].
    destruct (activeConnection s) as [active|]; simpl; [|finish].
    destruct (Nat.eqb active ws); simpl; finish.
  - left. unfold on_stream_item. destruct (iterating s) eqn:Hloop; cbn [fst snd];
      rewrite ?streams_created_send, ?streams_created_caught; finish.
  - left. unfold on_stream_error. destruct (iterating s) eqn:Hloop; cbn [fst snd];
      rewrite ?streams_created_send, ?streams_created_caught; finish.
  - left. unfold on_stream_end. destruct (iterating s) eqn:Hloop; simpl; finish.
  - left. unfold on_stderr. destruct (stderr_installed s); cbn [fst snd];
      rewrite ?streams_created_send; finish.
  - left. unfold on_request.
    destruct ((pathname req =? "/config") && (method req =? "POST")).
    + destruct (JSON_parse rt (body req)); simpl; finish.
    + destruct ((pathname req =? "/config") && (method req =? "GET")); simpl; finish.
Qed.

(** Over a whole run, from any state, [query] returns a stream at most
    once. *)
Lemma run_at_most_one (trace : list Event) (s : Server) :
  streams_created (effects_of rt trace s) <= 1.
Proof.
  revert s. induction trace as [|e trace IH]; intros s.
  - simpl. unfold effects_of, streams_created. simpl. lia.
  - rewrite effects_of_cons, streams_created_app.
    destruct (activeStream s) as [q|] eqn:Hstream.
    + destruct (step_with_stream s e q Hstream) as (Hq & Hnone & _).
      destruct (run_with_stream trace _ q Hq) as (_ & Hnone' & _). lia.
    + destruct (step_without_stream s e Hstream) as [[_ Hnone]|(q & Hq & Hone)].
      * specialize (IH (fst (step rt s e))). lia.
      * destruct (run_with_stream trace _ q Hq) as (_ & Hnone' & _). lia.
Qed.

(** The loop runs only on an assigned stream. *)
Lemma step_loop_has_stream (s : Server) (e : Event) :
  (iterating s = true -> activeStream s <> None) ->
  iterating (fst (step rt s e)) = true -> activeStream (fst (step rt s e)) <> None.
Proof.
  intros Hinv. destruct (activeStream s) as [q|] eqn:Hstream.
  - destruct (step_with_stream s e q Hstream) as (Hq & _ & _).
    rewrite Hq. discriminate.
  - assert (Hidle : iterating s = false).
    { destruct (iterating s); [exfalso; apply Hinv; reflexivity|reflexivity]. }
    destruct e as [ws|ws data|ws|message|err| |data|req]; simpl.
    + unfold on_connection. destruct (activeConnection s); [simpl; congruence|].
      cbn [activeStream with_activeConnection]. rewrite Hstream.
      destruct (processMessages_cases (with_activeConnection (Some ws) s))
        as [[Hsame _]|(options & _ & _ & Hstart)].
      * destruct (processMessages rt (with_activeConnection (Some ws) s))
          as [s2 started]. simpl in Hsame. subst s2. simpl. congruence.
      * rewrite Hstart. simpl. discriminate.
    + unfold on_message. destruct (is_listening ws s); simpl; [|congruence].
      destruct (handleMessage rt ws data (messageQueue s) (activeStream s)).
      simpl. congruence.
    + unfold on_close. destruct (is_listening ws s); simpl; [|congruence].
      destruct (activeConnection s) as [active|]; simpl; [|congruence].
      destruct (Nat.eqb active ws); simpl; congruence.
    + unfold on_stream_item. rewrite Hidle. simpl. congruence.
    + unfold on_stream_error. rewrite Hidle. simpl. congruence.
    + unfold on_stream_end. rewrite Hidle. simpl. congruence.
    + unfold on_stderr. destruct (stderr_installed s); simpl; congruence.
    + unfold on_request.
      destruct ((pathname req =? "/config") && (method req =? "POST")).
      * destruct (JSON_parse rt (body req)); simpl; congruence.
      * destruct ((pathname req =? "/config") && (method req =? "GET"));
          simpl; congruence.
Qed.

Lemma run_loop_has_stream (trace : list Event) (s : Server) :
  (iterating s = true -> activeStream s <> None) ->
  iterating (state_after rt trace s) = true ->
  activeStream (state_after rt trace s) <> None.
Proof.
  revert s. induction trace as [|e trace IH]; intros s Hinv.
  - exact Hinv.
  - rewrite state_after_cons. apply IH. apply step_loop_has_stream. exact Hinv.
Qed.

(** *** Before the first connection *)

Lemma step_before_connection (s : Server) (e : Event) :
  activeConnection s = None -> activeStream s = None ->
  is_connection e = false ->
  activeConnection (fst (step rt s e)) = None /\
  activeStream (fst (step rt s e)) = None /\
  streams_created (snd (step rt s e)) = 0.
Proof.
  intros Hactive Hstream Hevent.
  destruct e as [ws|ws data|ws|message|err| |data|req]; simpl.
  - discriminate.
  - unfold on_message. destruct (is_listening ws s); simpl; [|finish].
    destruct (handleMessage rt ws data (messageQueue s) (activeStream s))
      as [queue done]. simpl.
    rewrite streams_created_handler. finish.
  - unfold on_close. rewrite Hactive.
    destruct (is_listening ws s); simpl; finish.
  - unfold on_stream_item. destruct (iterating s) eqn:Hloop; cbn [fst snd];
      rewrite ?streams_created_send; finish.
  - unfold on_stream_error. destruct (iterating s) eqn:Hloop; cbn [fst snd];
      rewrite ?streams_created_caught; finish.
  - unfold on_stream_end. destruct (iterating s) eqn:Hloop; simpl; finish.
  - unfold on_stderr. destruct (stderr_installed s); cbn [fst snd];
      rewrite ?streams_created_send; finish.
  - unfold on_request.
    destruct ((pathname req =? "/config") && (method req =? "POST")).
    + destruct (JSON_parse rt (body req)); simpl; finish.
    + destruct ((pathname req =? "/config") && (method req =? "GET")); simpl; finish.
Qed.

Lemma run_before_connection (trace : list Event) (s : Server) :
  activeConnection s = None -> activeStream s = None ->
  no_connection trace = true ->
  activeConnection (state_after rt trace s) = None /\
  activeStream (state_after rt trace s) = None /\
  streams_created (effects_of rt trace s) = 0.
Proof.
  revert s. induction trace as [|e trace IH]; intros s Hactive Hstream Hnone.
  - finish.
  - simpl in Hnone. apply andb_prop in Hnone. destruct Hnone as [He Hrest].
    apply negb_true_iff in He.
    destruct (step_before_connection s e Hactive Hstream He) as (Ha & Hs & Hn).
    rewrite state_after_cons, effects_of_cons, streams_created_app, Hn.
    apply IH; assumption.
Qed.

(** *** The stored configuration *)

Lemma processMessages_keeps_config (s : Server) :
  queryConfig (fst (processMessages rt s)) = queryConfig s.
Proof.
  destruct (processMessages_cases s) as [[Hsame _]|(options & _ & _ & Hstart)].
  - rewrite Hsame. reflexivity.
  - rewrite Hstart. reflexivity.
Qed.

Lemma step_keeps_config (s : Server) (e : Event) :
  replaces_config rt e = false ->
  queryConfig (fst (step rt s e)) = queryConfig s.
Proof.
  intros Hevent. destruct e as [ws|ws data|ws|message|err| |data|req]; simpl.
  - unfold on_connection. destruct (activeConnection s); [reflexivity|].
    cbn [activeStream with_activeConnection].
    destruct (activeStream s); [reflexivity|].
    pose proof (processMessages_keeps_config (with_activeConnection (Some ws) s))
      as Hkeep.
    destruct (processMessages rt (with_activeConnection (Some ws) s)).
    exact Hkeep.
  - unfold on_message. destruct (is_listening ws s); [|reflexivity].
    destruct (handleMessage rt ws data (messageQueue s) (activeStream s)).
    reflexivity.
  - unfold on_close. destruct (is_listening ws s); [|reflexivity].
    destruct (activeConnection s) as [active|]; [|reflexivity].
    destruct (Nat.eqb active ws); reflexivity.
  - unfold on_stream_item. destruct (iterating s); reflexivity.
  - unfold on_stream_error. destruct (iterating s); reflexivity.
  - unfold on_stream_end. destruct (iterating s); reflexivity.
  - unfold on_stderr. destruct (stderr_installed s); reflexivity.
  - unfold on_request. simpl in Hevent.
    destruct ((pathname req =? "/config") && (method req =? "POST")).
    + destruct (JSON_parse rt (body req)); [discriminate|reflexivity].
    + destruct ((pathname req =? "/config") && (method req =? "GET")); reflexivity.
Qed.

Lemma run_keeps_config (trace : list Event) (s : Server) :
  keeps_config rt trace = true ->
  queryConfig (state_after rt trace s) = queryConfig s.
Proof.
  revert s. induction trace as [|e trace IH]; intros s Hkeep; [reflexivity|].
  simpl in Hkeep. apply andb_prop in Hkeep. destruct Hkeep as [He Hrest].
  apply negb_true_iff in He.
  rewrite state_after_cons, (IH _ Hrest). apply step_keeps_config. exact He.
Qed.

Lemma get_config_response (s : Server) :
  step rt s get_config
  = (s, [HttpRespond 200 json_header (Json (VObject [("config", queryConfig s)]))]).
Proof. reflexivity. Qed.

(** *** Agent output without a connection *)

Lemma step_output_dropped (s : Server) (e : Event) :
  activeConnection s = None -> is_agent_output e = true ->
  step rt s e = (s, []).
Proof.
  intros Hactive Hevent.
  destruct e as [ws|ws data|ws|message|err| |data|req]; try discriminate; simpl.
  - unfold on_stream_item, send_if_active. rewrite Hactive.
    destruct (iterating s); reflexivity.
  - unfold on_stderr, send_if_active. rewrite Hactive.
    destruct (stderr_installed s); reflexivity.
Qed.

End Traces.

(** ** The connection registry *)

(** C2: a connection attempt made while a connection is active gets exactly
    two effects, on the new socket only: one [error] envelope, then the
    close.  The module state (the active connection, the stream, the queue
    and everything else) is what it was, so the rest of the run is the run
    that would have happened without the attempt. *)
Theorem second_connection_rejected
    (rt : Runtime) (s : Server) (active ws : WebSocket) (rest : list Event) :
  activeConnection s = Some active ->
  step rt s (Connection ws)
  = (s, [WsSend ws (Json (envelope (OutError "Server already has an active connection")));
         WsClose ws]) /\
  run rt (Connection ws :: rest) s
  = (state_after rt rest s,
     [WsSend ws (Json (envelope (OutError "Server already has an active connection")));
      WsClose ws] ++ effects_of rt rest s).
Proof.
  intros Hactive.
  assert (Hstep : step rt s (Connection ws)
                  = (s, [WsSend ws (Json (envelope
                                            (OutError "Server already has an active connection")));
                         WsClose ws])).
  { simpl. unfold on_connection. rewrite Hactive. reflexivity. }
  split; [exact Hstep|].
  rewrite run_pair, state_after_cons, effects_of_cons, Hstep. reflexivity.
Qed.

Lemma second_connection_rejected_witness :
  let s := state_after Reference.runtime [Connection 1] initial in
  activeConnection s = Some 1 /\
  step Reference.runtime s (Connection 2)
  = (s, [WsSend 2 (Json (envelope (OutError "Server already has an active connection")));
         WsClose 2]) /\
  run Reference.runtime [Connection 2; StreamItem (VString "hello")] s
  = (state_after Reference.runtime [StreamItem (VString "hello")] s,
     [WsSend 2 (Json (envelope (OutError "Server already has an active connection")));
      WsClose 2]
     ++ effects_of Reference.runtime [StreamItem (VString "hello")] s).
Proof.
  split; [reflexivity|].
  apply (second_connection_rejected Reference.runtime
           (state_after Reference.runtime [Connection 1] initial) 1 2
           [StreamItem (VString "hello")]).
  reflexivity.
Defined.

(** C3: over any sequence of events of one process lifetime [query] returns
    a stream at most once.  The first connection creates the stream (its
    options are built from the Configuration stored then, and [query] has
    to return); from then on the stream reference never changes and no
    event, connection or other, creates a stream again. *)
Theorem stream_created_at_most_once (rt : Runtime) :
  (forall trace : list Event,
      streams_created (effects_of rt trace initial) <= 1) /\
  (forall (before : list Event) (ws : WebSocket) (options : Props),
      no_connection before = true ->
      build_options rt (queryConfig (state_after rt before initial)) = inr options ->
      query_throws rt options = None ->
      streams_created (effects_of rt before initial) = 0 /\
      activeStream (fst (step rt (state_after rt before initial) (Connection ws)))
      = Some (mkQuery options) /\
      snd (step rt (state_after rt before initial) (Connection ws))
      = [ConsoleInfo options; SdkQuery options;
         WsSend ws (Json (envelope OutConnected))]) /\
  (forall (s : Server) (q : Query) (after : list Event),
      activeStream s = Some q ->
      activeStream (state_after rt after s) = Some q /\
      streams_created (effects_of rt after s) = 0).
Proof.
  split; [|split].
  - intros trace. apply run_at_most_one.
  - intros before ws options Hbefore Hoptions Hquery.
    destruct (run_before_connection rt before initial eq_refl eq_refl Hbefore)
      as (Hactive & Hstream & Hnone).
    split; [exact Hnone|].
    simpl. unfold on_connection. rewrite Hactive.
    cbn [activeStream with_activeConnection]. rewrite Hstream.
    unfold processMessages. cbn [queryConfig with_activeConnection].
    rewrite Hoptions, Hquery. split; reflexivity.
  - intros s q after Hstream.
    destruct (run_with_stream rt after s q Hstream) as (Hq & Hnone & _).
    split; assumption.
Qed.

Lemma stream_created_at_most_once_witness :
  let rt := Reference.runtime in
  let before := [get_config; Close 7] in
  let options := default_options rt in
  no_connection before = true /\
  build_options rt (queryConfig (state_after rt before initial)) = inr options /\
  query_throws rt options = None /\
  streams_created (effects_of rt before initial) = 0 /\
  activeStream (fst (step rt (state_after rt before initial) (Connection 1)))
  = Some (mkQuery options) /\
  snd (step rt (state_after rt before initial) (Connection 1))
  = [ConsoleInfo options; SdkQuery options; WsSend 1 (Json (envelope OutConnected))].
Proof.
  split; [reflexivity|]. split; [reflexivity|]. split; [reflexivity|].
  apply (proj1 (proj2 (stream_created_at_most_once Reference.runtime))
           [get_config; Close 7] 1 (default_options Reference.runtime));
    reflexivity.
Defined.

(** ** Agent output *)

(** C4: an item of the agent's stream or a line of its diagnostic output
    handled while no connection is active has no effect and leaves no trace
    in the state; whatever happens later, connections included, the run is
    the run in which that output never occurred. *)
Theorem output_without_connection_dropped
    (rt : Runtime) (s : Server) (before : list Event) (e : Event)
    (after : list Event) :
  activeConnection (state_after rt before s) = None ->
  is_agent_output e = true ->
  step rt (state_after rt before s) e = (state_after rt before s, []) /\
  run rt (before ++ e :: after) s = run rt (before ++ after) s.
Proof.
  intros Hactive Hevent.
  pose proof (step_output_dropped rt _ e Hactive Hevent) as Hstep.
  split; [exact Hstep|].
  rewrite !run_pair, !state_after_app, !effects_of_app.
  rewrite state_after_cons, effects_of_cons, Hstep. reflexivity.
Qed.

Lemma output_without_connection_dropped_witness :
  let rt := Reference.runtime in
  let before := [Connection 1; Close 1] in
  let after := [Connection 2; StreamItem (VString "seen")] in
  activeConnection (state_after rt before initial) = None /\
  is_agent_output (StreamItem (VString "lost")) = true /\
  step rt (state_after rt before initial) (StreamItem (VString "lost"))
  = (state_after rt before initial, []) /\
  run rt (before ++ StreamItem (VString "lost") :: after) initial
  = run rt (before ++ after) initial.
Proof.
  split; [reflexivity|]. split; [reflexivity|].
  apply (output_without_connection_dropped Reference.runtime initial
           [Connection 1; Close 1] (StreamItem (VString "lost"))
           [Connection 2; StreamItem (VString "seen")]); reflexivity.
Defined.

(** C5: an error thrown while the [for await] iterates the stream is
    handled by the [catch]: it is logged, an [error] envelope with the
    error's message (or "Unknown error") goes to the active connection when
    there is one and nothing is sent when there is none, and the loop is
    over.  Nothing that happens afterwards starts the loop or a stream
    again. *)
Theorem stream_error_ends_loop
    (rt : Runtime) (before : list Event) (e : Thrown) (after : list Event) :
  iterating (state_after rt before initial) = true ->
  step rt (state_after rt before initial) (StreamError e)
  = (with_iterating false (state_after rt before initial),
     ConsoleError e ::
     match activeConnection (state_after rt before initial) with
     | Some ws => [WsSend ws (Json (envelope (OutError (error_text e))))]
     | None => []
     end) /\
  iterating (state_after rt after
               (with_iterating false (state_after rt before initial))) = false /\
  streams_created (effects_of rt after
                     (with_iterating false (state_after rt before initial))) = 0.
Proof.
  intros Hloop.
  assert (Hstream : activeStream (state_after rt before initial) <> None).
  { apply run_loop_has_stream; [discriminate|exact Hloop]. }
  destruct (activeStream (state_after rt before initial)) as [q|] eqn:Hq;
    [|congruence].
  split.
  - simpl. unfold on_stream_error. rewrite Hloop. reflexivity.
  - destruct (run_with_stream rt after
                (with_iterating false (state_after rt before initial)) q Hq)
      as (_ & Hnone & Hidle).
    split; [apply Hidle; reflexivity|exact Hnone].
Qed.

Lemma stream_error_ends_loop_witness :
  let rt := Reference.runtime in
  let s := state_after rt [Connection 1] initial in
  let after := [Close 1; Connection 2; StreamItem VNull] in
  iterating s = true /\
  step rt s (StreamError (ErrorObject "boom"))
  = (with_iterating false s,
     ConsoleError (ErrorObject "boom") ::
     match activeConnection s with
     | Some ws => [WsSend ws (Json (envelope (OutError (error_text (ErrorObject "boom")))))]
     | None => []
     end) /\
  iterating (state_after rt after (with_iterating false s)) = false /\
  streams_created (effects_of rt after (with_iterating false s)) = 0.
Proof.
  split; [reflexivity|].
  apply (stream_error_ends_loop Reference.runtime [Connection 1]
           (ErrorObject "boom") [Close 1; Connection 2; StreamItem VNull]).
  reflexivity.
Defined.

(** ** The configuration endpoint *)

Lemma post_config_invalid (rt : Runtime) (s : Server) (text : string) :
  JSON_parse rt text = None ->
  step rt s (post_config text)
  = (s, [HttpRespond 400 json_header (Json (VObject [("error", VString "Invalid JSON")]))]).
Proof. intros Hparse. simpl. unfold on_request. simpl. rewrite Hparse. reflexivity. Qed.

Lemma post_config_valid (rt : Runtime) (s : Server) (text : string) (config : Value) :
  JSON_parse rt text = Some config ->
  step rt s (post_config text)
  = (with_queryConfig config s,
     [HttpRespond 200 json_header
        (Json (VObject [("success", VBool true); ("config", config)]))]).
Proof. intros Hparse. simpl. unfold on_request. simpl. rewrite Hparse. reflexivity. Qed.

Lemma get_config_after (rt : Runtime) (s : Server) (between : list Event) :
  keeps_config rt between = true ->
  snd (step rt (state_after rt between s) get_config)
  = [HttpRespond 200 json_header (Json (VObject [("config", queryConfig s)]))].
Proof.
  intros Hkeep. rewrite get_config_response. simpl.
  rewrite (run_keeps_config rt between s Hkeep). reflexivity.
Qed.

(** C6: a [POST /config] whose body [JSON.parse] rejects is answered with
    400 and the body [{"error": "Invalid JSON"}] and changes nothing in the
    state; a later [GET /config], with no accepted [POST /config] in
    between, answers with the Configuration that was stored before. *)
Theorem invalid_config_rejected
    (rt : Runtime) (s : Server) (text : string) (between : list Event) :
  JSON_parse rt text = None ->
  keeps_config rt between = true ->
  step rt s (post_config text)
  = (s, [HttpRespond 400 json_header (Json (VObject [("error", VString "Invalid JSON")]))]) /\
  snd (step rt (state_after rt (post_config text :: between) s) get_config)
  = [HttpRespond 200 json_header (Json (VObject [("config", queryConfig s)]))].
Proof.
  intros Hparse Hkeep. split; [apply post_config_invalid; exact Hparse|].
  rewrite state_after_cons, (post_config_invalid rt s text Hparse).
  apply get_config_after. exact Hkeep.
Qed.

Lemma invalid_config_rejected_witness :
  let rt := Reference.runtime in
  let s := with_queryConfig (VObject [("model", VString "opus")]) initial in
  let between := [Connection 1; post_config "{oops"] in
  JSON_parse rt "{cwd: /tmp/x" = None /\
  keeps_config rt between = true /\
  step rt s (post_config "{cwd: /tmp/x")
  = (s, [HttpRespond 400 json_header (Json (VObject [("error", VString "Invalid JSON")]))]) /\
  snd (step rt (state_after rt (post_config "{cwd: /tmp/x" :: between) s) get_config)
  = [HttpRespond 200 json_header
       (Json (VObject [("config", VObject [("model", VString "opus")])]))].
Proof.
  split; [reflexivity|]. split; [reflexivity|].
  apply (invalid_config_rejected Reference.runtime
           (with_queryConfig (VObject [("model", VString "opus")]) initial)
           "{cwd: /tmp/x" [Connection 1; post_config "{oops"]); reflexivity.
Defined.

(** C7: a [POST /config] whose body parses stores the parsed value in place
    of the Configuration, whatever was stored before (nothing of the old
    value is kept, and of two such requests the later one wins), and is
    answered with 200 and [{success: true, config}]; a later [GET /config],
    with no accepted [POST /config] in between, answers [{config: v}] for
    that value [v]. *)
Theorem valid_config_replaces
    (rt : Runtime) (s : Server) (text : string) (config : Value)
    (between : list Event) :
  JSON_parse rt text = Some config ->
  keeps_config rt between = true ->
  step rt s (post_config text)
  = (with_queryConfig config s,
     [HttpRespond 200 json_header
        (Json (VObject [("success", VBool true); ("config", config)]))]) /\
  queryConfig (state_after rt [post_config text] s) = config /\
  snd (step rt (state_after rt (post_config text :: between) s) get_config)
  = [HttpRespond 200 json_header (Json (VObject [("config", config)]))] /\
  (forall (earlier : string),
      queryConfig (state_after rt [post_config earlier; post_config text] s) = config).
Proof.
  intros Hparse Hkeep.
  pose proof (post_config_valid rt s text config Hparse) as Hstep.
  split; [exact Hstep|]. split; [|split].
  - rewrite state_after_cons, Hstep. reflexivity.
  - rewrite state_after_cons, Hstep. cbn [fst].
    rewrite (get_config_after rt _ between Hkeep). reflexivity.
  - intros earlier. rewrite !state_after_cons.
    rewrite (post_config_valid rt _ text config Hparse). reflexivity.
Qed.

Lemma valid_config_replaces_witness :
  let rt := Reference.runtime in
  let s := with_queryConfig (VObject [("model", VString "opus")]) initial in
  let config := VObject [("cwd", VString "/tmp/x")] in
  let between := [Connection 1; post_config "{oops"; StreamItem VNull] in
  JSON_parse rt cwd_tmp_x = Some config /\
  keeps_config rt between = true /\
  step rt s (post_config cwd_tmp_x)
  = (with_queryConfig config s,
     [HttpRespond 200 json_header
        (Json (VObject [("success", VBool true); ("config", config)]))]) /\
  queryConfig (state_after rt [post_config cwd_tmp_x] s) = config /\
  snd (step rt (state_after rt (post_config cwd_tmp_x :: between) s) get_config)
  = [HttpRespond 200 json_header
       (Json (VObject [("config", VObject [("cwd", VString "/tmp/x")])]))] /\
  (forall (earlier : string),
      queryConfig (state_after rt [post_config earlier; post_config cwd_tmp_x] s)
      = config).
Proof.
  split; [reflexivity|]. split; [reflexivity|].
  apply (valid_config_replaces Reference.runtime
           (with_queryConfig (VObject [("model", VString "opus")]) initial)
           cwd_tmp_x (VObject [("cwd", VString "/tmp/x")])
           [Connection 1; post_config "{oops"; StreamItem VNull]); reflexivity.
Defined.

(** C10: the only test a [POST /config] body goes through is [JSON.parse].
    Whatever value it parses to, an object or not, the request is answered
    with 200, that value becomes the stored Configuration as it is, and the
    [GET /config] that follows answers with that same value. *)
Theorem config_not_validated
    (rt : Runtime) (s : Server) (text : string) (config : Value) :
  JSON_parse rt text = Some config ->
  run rt [post_config text; get_config] s
  = (with_queryConfig config s,
     [HttpRespond 200 json_header
        (Json (VObject [("success", VBool true); ("config", config)]));
      HttpRespond 200 json_header (Json (VObject [("config", config)]))]).
Proof.
  intros Hparse. cbn [run].
  rewrite (post_config_valid rt s text config Hparse), get_config_response.
  reflexivity.
Qed.

Lemma config_not_validated_witness :
  let rt := Reference.runtime in
  JSON_parse rt "null" = Some VNull /\
  run rt [post_config "null"; get_config] initial
  = (with_queryConfig VNull initial,
     [HttpRespond 200 json_header
        (Json (VObject [("success", VBool true); ("config", VNull)]));
      HttpRespond 200 json_header (Json (VObject [("config", VNull)]))]).
Proof.
  split; [reflexivity|].
  apply (config_not_validated Reference.runtime initial "null" VNull).
  reflexivity.
Defined.

(** * Further properties of the server *)

(** ** The HTTP handler *)




(** ** The options of the agent session, continued *)

(** X7: precedence in the options.  For every property other than [env],
    an own property of the stored Configuration overrides the server's
    default of that name, and a default the Configuration does not mention
    is kept; so every default ([permissionMode],
    [allowDangerouslySkipPermissions], [settingSources], [cwd], [stderr])
    is present in the options under some value. *)
Theorem config_overrides_defaults
    (rt : Runtime) (config : Value) (options : Props) (k : string) :
  build_options rt config = inr options ->
  k <> "env" ->
  get_prop k options
  = match own_property k config with
    | Some v => Some v
    | None => get_prop k (default_options rt)
    end /\
  (get_prop k (default_options rt) <> None -> get_prop k options <> None).
Proof.
  intros Hbuild Hk.
  assert (Hget : get_prop k options
                 = match own_property k config with
                   | Some v => Some v
                   | None => get_prop k (default_options rt)
                   end).
  { unfold build_options in Hbuild.
    destruct (read_anthropicApiKey config) as [e|key]; [discriminate|].
    injection Hbuild as <-.
    destruct (truthy key) eqn:Htruthy.
    - rewrite get_spread.
      assert (Hother : own_property k (env_override rt key) = None).
      { unfold own_property, env_override. cbn [own_props rev app get_prop].
        destruct ("env" =? k) eqn:E; [|reflexivity].
        apply String.eqb_eq in E. congruence. }
      rewrite Hother. apply get_spread.
    - rewrite (spread_falsy _ _ Htruthy). apply get_spread. }
  split; [exact Hget|].
  intros Hdefault. rewrite Hget.
  destruct (own_property k config); [discriminate|exact Hdefault].
Qed.

Lemma config_overrides_defaults_witness :
  let rt := Reference.runtime in
  let config := VObject [("cwd", VString "/tmp/x")] in
  let options := set_prop "cwd" (VString "/tmp/x") (default_options rt) in
  build_options rt config = inr options /\
  "cwd" <> "env" /\
  get_prop "cwd" options
  = match own_property "cwd" config with
    | Some v => Some v
    | None => get_prop "cwd" (default_options rt)
    end /\
  (get_prop "cwd" (default_options rt) <> None -> get_prop "cwd" options <> None).
Proof.
  split; [reflexivity|]. split; [discriminate|].
  apply (config_overrides_defaults Reference.runtime
           (VObject [("cwd", VString "/tmp/x")])
           (set_prop "cwd" (VString "/tmp/x") (default_options Reference.runtime))
           "cwd"); [reflexivity|discriminate].
Defined.

(** X8: building the options throws exactly when the stored Configuration
    is [null] (or [undefined]), where reading [anthropicApiKey] is a
    TypeError; for every other value, objects and scalars alike, the
    options are built. *)
Theorem options_fail_only_on_null (rt : Runtime) (config : Value) :
  (exists e, build_options rt config = inl e) <->
  (config = VNull \/ config = VUndefined).
Proof.
  split.
  - intros [e Hbuild]. unfold build_options in Hbuild.
    destruct config; simpl in Hbuild; auto; discriminate.
  - intros [-> | ->]; eexists; reflexivity.
Qed.

(** ** Connections, continued *)

Lemma processMessages_frame (rt : Runtime) (s : Server) :
  activeConnection (fst (processMessages rt s)) = activeConnection s /\
  messageQueue (fst (processMessages rt s)) = messageQueue s /\
  listening (fst (processMessages rt s)) = listening s.
Proof.
  destruct (processMessages_cases rt s) as [[Hsame _]|(options & _ & _ & Hstart)].
  - rewrite Hsame. finish.
  - rewrite Hstart. finish.
Qed.

Lemma step_listens_to_active (rt : Runtime) (s : Server) (e : Event) :
  listening s = active_listeners s ->
  listening (fst (step rt s e)) = active_listeners (fst (step rt s e)).
Proof.
  intros Hinv.
  destruct e as [ws|ws data|ws|message|err| |data|req]; simpl.
  - unfold on_connection. destruct (activeConnection s) eqn:Hactive;
      [cbn [fst]; exact Hinv|].
    assert (Hnone : listening s = []).
    { rewrite Hinv. unfold active_listeners. rewrite Hactive. reflexivity. }
    destruct (processMessages_frame rt (with_activeConnection (Some ws) s))
      as (Ha & _ & Hl).
    destruct (match activeStream (with_activeConnection (Some ws) s) with
              | Some _ => (with_activeConnection (Some ws) s, [])
              | None => processMessages rt (with_activeConnection (Some ws) s)
              end) as [s2 started] eqn:Hstart.
    assert (Hs2 : activeConnection s2 = Some ws /\ listening s2 = []).
    { cbn [activeStream with_activeConnection] in Hstart.
      destruct (activeStream s).
      - injection Hstart as <- _. simpl. auto.
      - rewrite Hstart in Ha, Hl. simpl in Ha, Hl. rewrite Ha, Hl. auto. }
    destruct Hs2 as [Ha2 Hl2]. unfold active_listeners. simpl.
    rewrite Ha2, Hl2. reflexivity.
  - unfold on_message. destruct (is_listening ws s); [|exact Hinv].
    destruct (handleMessage rt ws data (messageQueue s) (activeStream s)).
    exact Hinv.
  - unfold on_close, is_listening. rewrite Hinv. unfold active_listeners in *.
    destruct (activeConnection s) as [active|] eqn:Hactive; simpl;
      [|rewrite Hactive; exact Hinv].
    rewrite orb_false_r, (Nat.eqb_sym ws active).
    destruct (Nat.eqb active ws) eqn:Heq; simpl.
    + rewrite Hinv. simpl. rewrite Heq. reflexivity.
    + rewrite Hactive. exact Hinv.
  - unfold on_stream_item. destruct (iterating s); exact Hinv.
  - unfold on_stream_error. destruct (iterating s); exact Hinv.
  - unfold on_stream_end. destruct (iterating s); exact Hinv.
  - unfold on_stderr. destruct (stderr_installed s); exact Hinv.
  - unfold on_request.
    destruct ((pathname req =? "/config") && (method req =? "POST")).
    + destruct (JSON_parse rt (body req)); exact Hinv.
    + destruct ((pathname req =? "/config") && (method req =? "GET")); exact Hinv.
Qed.

Lemma run_listens_to_active (rt : Runtime) (trace : list Event) (s : Server) :
  listening s = active_listeners s ->
  listening (state_after rt trace s) = active_listeners (state_after rt trace s).
Proof.
  revert s. induction trace as [|e trace IH]; intros s Hinv; [exact Hinv|].
  rewrite state_after_cons. apply IH. apply step_listens_to_active. exact Hinv.
Qed.

(** X3: at every point of a run the sockets whose 'message' and 'close'
    handlers are installed are exactly the active connection: one socket
    while a client is connected, none otherwise.  A rejected socket never
    gets handlers, and a closed one is forgotten. *)
Theorem listens_to_active_connection_only (rt : Runtime) (trace : list Event) :
  listening (state_after rt trace initial)
  = active_listeners (state_after rt trace initial).
Proof. apply run_listens_to_active. reflexivity. Qed.

Lemma close_active (rt : Runtime) (s : Server) (a : WebSocket) :
  activeConnection s = Some a ->
  listening s = active_listeners s ->
  step rt s (Close a) = (with_listening [] (with_activeConnection None s), []).
Proof.
  intros Hactive Hinv. simpl. unfold on_close, is_listening.
  rewrite Hinv. unfold active_listeners. rewrite Hactive. simpl.
  rewrite Nat.eqb_refl. simpl. rewrite Hinv. unfold active_listeners.
  rewrite Hactive. simpl. rewrite Nat.eqb_refl. reflexivity.
Qed.

(** X4: when the active client disconnects, the server frees the slot
    without any effect, and the next connection attempt is accepted; if the
    stream exists already, all the newcomer causes is its [connected]
    envelope, and it becomes the connection that listens. *)
Theorem reconnect_after_close
    (rt : Runtime) (before : list Event) (a b : WebSocket) :
  activeConnection (state_after rt before initial) = Some a ->
  step rt (state_after rt before initial) (Close a)
  = (with_listening [] (with_activeConnection None (state_after rt before initial)),
     []) /\
  activeConnection
    (state_after rt [Close a; Connection b] (state_after rt before initial))
  = Some b /\
  (forall q, activeStream (state_after rt before initial) = Some q ->
     run rt [Close a; Connection b] (state_after rt before initial)
     = (with_listening [b]
          (with_activeConnection (Some b) (state_after rt before initial)),
        [WsSend b (Json (envelope OutConnected))])).
Proof.
  intros Hactive.
  pose proof (listens_to_active_connection_only rt before) as Hinv.
  set (s := state_after rt before initial) in *. clearbody s.
  pose proof (close_active rt s a Hactive Hinv) as Hclose.
  split; [exact Hclose|]. split.
  - rewrite !state_after_cons, Hclose. cbn [fst].
    unfold state_after at 1. cbn [run fst step]. unfold on_connection.
    cbn [activeConnection with_listening with_activeConnection activeStream].
    destruct (activeStream s) eqn:Hstream; [reflexivity|].
    match goal with
    | |- context [processMessages rt ?s0] =>
        destruct (processMessages_frame rt s0) as (Ha & _ & _);
        destruct (processMessages rt s0) as [s2 started]
    end.
    simpl in Ha |- *. exact Ha.
  - intros q Hstream. cbn [run]. rewrite Hclose.
    cbn [step]. unfold on_connection.
    cbn [activeConnection with_listening with_activeConnection activeStream].
    rewrite Hstream. reflexivity.
Qed.

Lemma reconnect_after_close_witness :
  let rt := Reference.runtime in
  let s := state_after rt [Connection 1; StreamItem VNull] initial in
  activeConnection s = Some 1 /\
  step rt s (Close 1)
  = (with_listening [] (with_activeConnection None s), []) /\
  activeConnection (state_after rt [Close 1; Connection 2] s) = Some 2 /\
  (forall q, activeStream s = Some q ->
     run rt [Close 1; Connection 2] s
     = (with_listening [2] (with_activeConnection (Some 2) s),
        [WsSend 2 (Json (envelope OutConnected))])).
Proof.
  split; [reflexivity|].
  apply (reconnect_after_close Reference.runtime
           [Connection 1; StreamItem VNull] 1 2).
  reflexivity.
Defined.

(** X5: a socket rejected because the server is occupied is never
    listened to: after the rejection its frames do not reach the message
    handler and its close does not disconnect the active client, so the
    whole episode leaves the state as it was and causes nothing but the
    rejection itself. *)
Theorem rejected_socket_ignored
    (rt : Runtime) (s : Server) (a ws : WebSocket) (data : string) :
  activeConnection s = Some a ->
  is_listening ws s = false ->
  run rt [Connection ws; Message ws data; Close ws] s
  = (s, [WsSend ws (Json (envelope (OutError "Server already has an active connection")));
         WsClose ws]).
Proof.
  intros Hactive Hws.
  assert (Hreject : step rt s (Connection ws)
                    = (s, [WsSend ws (Json (envelope
                             (OutError "Server already has an active connection")));
                           WsClose ws])).
  { simpl. unfold on_connection. rewrite Hactive. reflexivity. }
  assert (Hframe : step rt s (Message ws data) = (s, [])).
  { simpl. unfold on_message. rewrite Hws. reflexivity. }
  assert (Hclose : step rt s (Close ws) = (s, [])).
  { simpl. unfold on_close. rewrite Hws. reflexivity. }
  cbn [run]. rewrite Hreject. cbv beta iota.
  rewrite Hframe. cbv beta iota. rewrite Hclose. reflexivity.
Qed.

Lemma rejected_socket_ignored_witness :
  let rt := Reference.runtime in
  let s := state_after rt [Connection 1] initial in
  activeConnection s = Some 1 /\
  is_listening 2 s = false /\
  run rt [Connection 2; Message 2 cwd_tmp_x; Close 2] s
  = (s, [WsSend 2 (Json (envelope (OutError "Server already has an active connection")));
         WsClose 2]).
Proof.
  split; [reflexivity|]. split; [reflexivity|].
  apply (rejected_socket_ignored Reference.runtime
           (state_after Reference.runtime [Connection 1] initial) 1 2 cwd_tmp_x);
    reflexivity.
Defined.

(** ** Agent output, continued *)

Lemma step_forwards (rt : Runtime) (s : Server) (ws : WebSocket) (e : Event) :
  activeConnection s = Some ws ->
  iterating s = true ->
  stderr_installed s = true ->
  is_agent_output e = true ->
  step rt s e = (s, forward_to ws [e]).
Proof.
  intros Hactive Hloop Hstderr Hevent.
  destruct e as [c|c data|c|message|err| |data|req]; try discriminate; simpl.
  - unfold on_stream_item, send_if_active. rewrite Hloop, Hactive. reflexivity.
  - unfold on_stderr, send_if_active. rewrite Hstderr, Hactive. reflexivity.
Qed.

Lemma forward_to_cons (ws : WebSocket) (e : Event) (trace : list Event) :
  forward_to ws (e :: trace) = forward_to ws [e] ++ forward_to ws trace.
Proof.
  unfold forward_to. simpl. rewrite app_nil_r, map_app. reflexivity.
Qed.

(** X6: while a client is connected and the loop runs, a burst of agent
    events (stream items and diagnostic lines, in any mix) is relayed to
    that client and to nobody else, one envelope per event, [sdk_message]
    for an item and [info] for a line, in the order the events occurred;
    relaying changes nothing in the state. *)
Theorem agent_output_relayed_in_order
    (rt : Runtime) (s : Server) (ws : WebSocket) (trace : list Event) :
  activeConnection s = Some ws ->
  iterating s = true ->
  stderr_installed s = true ->
  forallb is_agent_output trace = true ->
  run rt trace s = (s, forward_to ws trace).
Proof.
  intros Hactive Hloop Hstderr.
  induction trace as [|e trace IH]; intros Hall; [reflexivity|].
  simpl in Hall. apply andb_prop in Hall. destruct Hall as [He Hrest].
  cbn [run]. rewrite (step_forwards rt s ws e Hactive Hloop Hstderr He).
  cbv beta iota. rewrite (IH Hrest), (forward_to_cons ws e trace). reflexivity.
Qed.

Lemma agent_output_relayed_in_order_witness :
  let rt := Reference.runtime in
  let s := state_after rt [Connection 1] initial in
  let trace := [StreamItem (VString "one"); Stderr "warn"; StreamItem VNull] in
  activeConnection s = Some 1 /\
  iterating s = true /\
  stderr_installed s = true /\
  forallb is_agent_output trace = true /\
  run rt trace s
  = (s, [WsSend 1 (Json (envelope (OutSdkMessage (VString "one"))));
         WsSend 1 (Json (envelope (OutInfo "warn")));
         WsSend 1 (Json (envelope (OutSdkMessage VNull)))]).
Proof.
  split; [reflexivity|]. split; [reflexivity|]. split; [reflexivity|].
  split; [reflexivity|].
  apply (agent_output_relayed_in_order Reference.runtime
           (state_after Reference.runtime [Connection 1] initial) 1
           [StreamItem (VString "one"); Stderr "warn"; StreamItem VNull]);
    reflexivity.
Defined.

(** X10: when the agent's stream ends normally the loop is left without
    any effect, and that is final: the stream reference stays assigned, so
    whatever follows, reconnections included, neither re-enters the loop
    nor creates another stream. *)
Theorem stream_end_is_final
    (rt : Runtime) (before after : list Event) :
  iterating (state_after rt before initial) = true ->
  step rt (state_after rt before initial) StreamEnd
  = (with_iterating false (state_after rt before initial), []) /\
  iterating (state_after rt after
               (with_iterating false (state_after rt before initial))) = false /\
  activeStream (state_after rt after
                  (with_iterating false (state_after rt before initial)))
  = activeStream (state_after rt before initial) /\
  streams_created (effects_of rt after
                     (with_iterating false (state_after rt before initial))) = 0.
Proof.
  intros Hloop.
  assert (Hstream : activeStream (state_after rt before initial) <> None).
  { apply run_loop_has_stream; [discriminate|exact Hloop]. }
  destruct (activeStream (state_after rt before initial)) as [q|] eqn:Hq;
    [|congruence].
  split.
  - simpl. unfold on_stream_end. rewrite Hloop. reflexivity.
  - destruct (run_with_stream rt after
                (with_iterating false (state_after rt before initial)) q Hq)
      as (Hkept & Hnone & Hidle).
    split; [apply Hidle; reflexivity|]. split; assumption.
Qed.

Lemma stream_end_is_final_witness :
  let rt := Reference.runtime in
  let s := state_after rt [Connection 1; StreamItem VNull] initial in
  let after := [Close 1; Connection 2; StreamItem VNull] in
  iterating s = true /\
  step rt s StreamEnd = (with_iterating false s, []) /\
  iterating (state_after rt after (with_iterating false s)) = false /\
  activeStream (state_after rt after (with_iterating false s)) = activeStream s /\
  streams_created (effects_of rt after (with_iterating false s)) = 0.
Proof.
  split; [reflexivity|].
  apply (stream_end_is_final Reference.runtime [Connection 1; StreamItem VNull]
           [Close 1; Connection 2; StreamItem VNull]).
  reflexivity.
Defined.

(** ** Creating the stream, continued *)

Lemma processMessages_fails (rt : Runtime) (s : Server) (e : Thrown) :
  creation_error rt (queryConfig s) = Some e ->
  exists log,
    processMessages rt s = (s, log ++ on_caught s e) /\
    (log = [] \/ exists options, log = [ConsoleInfo options]).
Proof.
  unfold creation_error, processMessages.
  destruct (build_options rt (queryConfig s)) as [e'|options].
  - intros [= ->]. exists []. auto.
  - intros Hquery. rewrite Hquery. exists [ConsoleInfo options]. eauto.
Qed.

(** X9: when the stream cannot be created at a connection (the options
    cannot be built or [query] throws) the connection is accepted all the
    same: the error is logged, the client gets an [error] envelope with its
    text and then [connected], and the stream stays unassigned.  Nothing is
    given up for good: once that client has left and a Configuration that
    works has been posted, the next connection creates the stream. *)
Theorem creation_failure_reported_then_retried
    (rt : Runtime) (s : Server) (ws ws' : WebSocket) (e : Thrown)
    (text : string) (config : Value) (options : Props) :
  activeConnection s = None ->
  activeStream s = None ->
  creation_error rt (queryConfig s) = Some e ->
  JSON_parse rt text = Some config ->
  build_options rt config = inr options ->
  query_throws rt options = None ->
  fst (step rt s (Connection ws))
  = with_listening (ws :: listening s) (with_activeConnection (Some ws) s) /\
  (exists log,
      snd (step rt s (Connection ws))
      = log ++ [ConsoleError e;
                WsSend ws (Json (envelope (OutError (error_text e))));
                WsSend ws (Json (envelope OutConnected))] /\
      (log = [] \/ exists attempted, log = [ConsoleInfo attempted])) /\
  activeStream
    (state_after rt [Connection ws; Close ws; post_config text; Connection ws'] s)
  = Some (mkQuery options).
Proof.
  intros Hactive Hstream Herror Hparse Hbuild Hquery.
  destruct (processMessages_fails rt (with_activeConnection (Some ws) s) e Herror)
    as (log & Hfail & Hlog).
  assert (Hstep : step rt s (Connection ws)
                  = (with_listening (ws :: listening s)
                       (with_activeConnection (Some ws) s),
                     (log ++ on_caught (with_activeConnection (Some ws) s) e)
                     ++ [WsSend ws (Json (envelope OutConnected))])).
  { simpl. unfold on_connection. rewrite Hactive.
    cbn [activeStream with_activeConnection]. rewrite Hstream, Hfail. reflexivity. }
  split; [rewrite Hstep; reflexivity|]. split.
  - exists log. split; [|exact Hlog].
    rewrite Hstep. cbn [snd]. rewrite <- app_assoc. reflexivity.
  - rewrite state_after_cons, Hstep. cbn [fst].
    rewrite state_after_cons.
    assert (Hclose : step rt (with_listening (ws :: listening s)
                                (with_activeConnection (Some ws) s)) (Close ws)
                     = (with_listening
                          (filter (fun w => negb (Nat.eqb w ws)) (ws :: listening s))
                          (with_activeConnection None s), [])).
    { simpl. unfold on_close, is_listening. simpl.
      rewrite !Nat.eqb_refl. simpl. rewrite !Nat.eqb_refl. reflexivity. }
    rewrite Hclose. cbn [fst].
    rewrite state_after_cons, (post_config_valid rt _ text config Hparse).
    cbn [fst]. unfold state_after. cbn [run step]. unfold on_connection.
    cbn [activeConnection activeStream with_queryConfig with_listening
           with_activeConnection].
    rewrite Hstream. unfold processMessages.
    cbn [queryConfig with_queryConfig with_listening with_activeConnection].
    rewrite Hbuild, Hquery. reflexivity.
Qed.

Lemma creation_failure_reported_then_retried_witness :
  let rt := Reference.runtime in
  let s := with_queryConfig VNull initial in
  let e := ErrorObject "Cannot read properties of null (reading 'anthropicApiKey')" in
  let options := set_prop "cwd" (VString "/tmp/x") (default_options rt) in
  activeConnection s = None /\
  activeStream s = None /\
  creation_error rt (queryConfig s) = Some e /\
  JSON_parse rt cwd_tmp_x = Some (VObject [("cwd", VString "/tmp/x")]) /\
  build_options rt (VObject [("cwd", VString "/tmp/x")]) = inr options /\
  query_throws rt options = None /\
  fst (step rt s (Connection 1))
  = with_listening (1 :: listening s) (with_activeConnection (Some 1) s) /\
  (exists log,
      snd (step rt s (Connection 1))
      = log ++ [ConsoleError e;
                WsSend 1 (Json (envelope (OutError (error_text e))));
                WsSend 1 (Json (envelope OutConnected))] /\
      (log = [] \/ exists attempted, log = [ConsoleInfo attempted])) /\
  activeStream
    (state_after rt [Connection 1; Close 1; post_config cwd_tmp_x; Connection 2] s)
  = Some (mkQuery options).
Proof.
  do 6 (split; [reflexivity|]).
  apply (creation_failure_reported_then_retried Reference.runtime
           (with_queryConfig VNull initial) 1 2
           (ErrorObject "Cannot read properties of null (reading 'anthropicApiKey')")
           cwd_tmp_x (VObject [("cwd", VString "/tmp/x")])
           (set_prop "cwd" (VString "/tmp/x") (default_options Reference.runtime)));
    reflexivity.
Defined.

(** ** The queue and the stored configuration, continued *)




(** X12: the Configuration is read when the stream is created and not
    again: a [POST /config] accepted while a stream exists replaces the
    stored Configuration (a later [GET /config] shows the new value) but
    the stream, with the options it was created with, stays the active
    stream through everything that follows. *)
Theorem running_stream_keeps_its_options
    (rt : Runtime) (s : Server) (q : Query) (text : string) (config : Value)
    (after : list Event) :
  activeStream s = Some q ->
  JSON_parse rt text = Some config ->
  keeps_config rt after = true ->
  activeStream (state_after rt (post_config text :: after) s) = Some q /\
  queryConfig (state_after rt (post_config text :: after) s) = config.
Proof.
  intros Hstream Hparse Hkeep. split.
  - apply run_with_stream. exact Hstream.
  - rewrite state_after_cons, (post_config_valid rt s text config Hparse).
    cbn [fst]. rewrite (run_keeps_config rt after _ Hkeep). reflexivity.
Qed.

Lemma running_stream_keeps_its_options_witness :
  let rt := Reference.runtime in
  let s := state_after rt [Connection 1] initial in
  let after := [Close 1; Connection 2; get_config] in
  activeStream s = Some (mkQuery (default_options rt)) /\
  JSON_parse rt cwd_tmp_x = Some (VObject [("cwd", VString "/tmp/x")]) /\
  keeps_config rt after = true /\
  activeStream (state_after rt (post_config cwd_tmp_x :: after) s)
  = Some (mkQuery (default_options rt)) /\
  queryConfig (state_after rt (post_config cwd_tmp_x :: after) s)
  = VObject [("cwd", VString "/tmp/x")].
Proof.
  do 3 (split; [reflexivity|]).
  apply (running_stream_keeps_its_options Reference.runtime
           (state_after Reference.runtime [Connection 1] initial)
           (mkQuery (default_options Reference.runtime))
           cwd_tmp_x (VObject [("cwd", VString "/tmp/x")])
           [Close 1; Connection 2; get_config]); reflexivity.
Defined.

(** ** The message source, continued *)

Module MessageSourceRequests.
Import MessageSource.

Lemma run_body_accounts (pending : nat) (s : Source) :
  List.length (delivered (run_body pending s)) + requests (run_body pending s)
  = List.length (delivered s) + pending /\
  (requests (run_body pending s) = 0 <-> generator (run_body pending s) <> AwaitingTimer).
Proof.
  rewrite MessageSourceFacts.run_body_fields. cbn [delivered requests generator].
  rewrite length_app, length_firstn. split; [lia|].
  destruct (pending <=? List.length (messageQueue s))%nat eqn:Hle.
  - apply Nat.leb_le in Hle. split; [discriminate|lia].
  - apply Nat.leb_gt in Hle. split; [lia|congruence].
Qed.

Lemma step_accounts (s : Source) (e : Event) :
  (requests s = 0 <-> generator s <> AwaitingTimer) ->
  List.length (delivered (step s e)) + requests (step s e)
  = List.length (delivered s) + requests s + requested [e] /\
  (requests (step s e) = 0 <-> generator (step s e) <> AwaitingTimer).
Proof.
  intros Hinv. destruct e; cbn [step requested filter List.length].
  - cbn [delivered requests generator]. split; [lia|exact Hinv].
  - destruct (generator s) eqn:Hgen.
    + destruct (run_body_accounts (S (requests s)) s) as [Hsum Hiff].
      split; [lia|exact Hiff].
    + destruct (run_body_accounts (S (requests s)) s) as [Hsum Hiff].
      split; [lia|exact Hiff].
    + cbn [delivered requests generator]. split; [lia|].
      split; [discriminate|congruence].
  - destruct (generator s) eqn:Hgen.
    + split; [lia|]. rewrite Hgen. exact Hinv.
    + split; [lia|]. rewrite Hgen. exact Hinv.
    + destruct (run_body_accounts (requests s) s) as [Hsum Hiff].
      split; [lia|exact Hiff].
Qed.

Lemma requested_cons (e : Event) (trace : list Event) :
  requested (e :: trace) = requested [e] + requested trace.
Proof. unfold requested. simpl. destruct e; reflexivity. Qed.

Lemma run_accounts (trace : list Event) (s : Source) :
  (requests s = 0 <-> generator s <> AwaitingTimer) ->
  List.length (delivered (run trace s)) + requests (run trace s)
  = List.length (delivered s) + requests s + requested trace /\
  (requests (run trace s) = 0 <-> generator (run trace s) <> AwaitingTimer).
Proof.
  revert s. induction trace as [|e trace IH]; intros s Hinv.
  - simpl. split; [unfold requested; simpl; lia|exact Hinv].
  - change (run (e :: trace) s) with (run trace (step s e)).
    destruct (step_accounts s e Hinv) as [Hsum Hinv'].
    destruct (IH _ Hinv') as [Hsum' Hinv''].
    split; [rewrite requested_cons; lia|exact Hinv''].
Qed.

Lemma initial_accounts : requests initial = 0 <-> generator initial <> AwaitingTimer.
Proof. simpl. split; [discriminate|reflexivity]. Qed.

(** X13: every [next()] of the consumer is either answered by exactly one
    yielded value or still pending, never dropped and never answered twice
    (the generator has no [return], so no request is answered with "done");
    and a request is pending exactly when the body waits on the timer. *)
Theorem every_request_answered_or_pending (trace : list Event) :
  List.length (delivered (run trace initial)) + requests (run trace initial)
  = requested trace /\
  (requests (run trace initial) = 0 <-> generator (run trace initial) <> AwaitingTimer).
Proof.
  destruct (run_accounts trace initial initial_accounts) as [Hsum Hinv].
  split; [exact Hsum|exact Hinv].
Qed.

(** X14: a request made while the generator is suspended and the queue is
    not empty is answered at once, without waiting for the timer, with the
    oldest queued message, which leaves the queue. *)
Theorem request_answered_at_once
    (trace : list Event) (message : Value) (rest : list Value) :
  generator (run trace initial) <> AwaitingTimer ->
  messageQueue (run trace initial) = message :: rest ->
  step (run trace initial) Next
  = mkSource rest SuspendedYield 0 (delivered (run trace initial) ++ [message]).
Proof.
  intros Hgen Hqueue.
  destruct (run_accounts trace initial initial_accounts) as [_ Hinv].
  apply Hinv in Hgen.
  assert (Hbody : step (run trace initial) Next
                  = run_body (S (requests (run trace initial))) (run trace initial)).
  { cbn [step]. destruct (generator (run trace initial)); try reflexivity.
    apply Hinv in Hgen. congruence. }
  rewrite Hbody, Hgen. unfold run_body. rewrite Hqueue. reflexivity.
Qed.

Lemma request_answered_at_once_witness :
  let a := VString "a" in
  let b := VString "b" in
  let trace := [Push a; Push b] in
  generator (run trace initial) <> AwaitingTimer /\
  messageQueue (run trace initial) = a :: [b] /\
  step (run trace initial) Next
  = mkSource [b] SuspendedYield 0 (delivered (run trace initial) ++ [a]).
Proof.
  split; [discriminate|]. split; [reflexivity|].
  apply (request_answered_at_once [Push (VString "a"); Push (VString "b")]
           (VString "a") [VString "b"]); [discriminate|reflexivity].
Defined.

Lemma run_app (t1 t2 : list Event) (s : Source) :
  run (t1 ++ t2) s = run t2 (run t1 s).
Proof. apply fold_left_app. Qed.

Lemma ticks_on_empty_queue (n : nat) (sent : list Value) :
  run (repeat TimerFired n) (mkSource [] AwaitingTimer 1 sent)
  = mkSource [] AwaitingTimer 1 sent.
Proof.
  induction n as [|n IH]; [reflexivity|].
  change (run (repeat TimerFired (S n)) (mkSource [] AwaitingTimer 1 sent))
    with (run (repeat TimerFired n)
            (mkSource [] AwaitingTimer 1 (sent ++ []))).
  rewrite app_nil_r. exact IH.
Qed.

(** X15: polling.  A request made on an empty queue is left pending, and
    timer ticks that find the queue still empty change nothing, however
    many; a message pushed meanwhile is not yielded by the push itself but
    by the next timer tick, which answers the pending request with it. *)
Theorem pending_request_answered_at_next_tick
    (trace : list Event) (n : nat) (message : Value) :
  generator (run trace initial) <> AwaitingTimer ->
  messageQueue (run trace initial) = [] ->
  run (Next :: repeat TimerFired n) (run trace initial)
  = mkSource [] AwaitingTimer 1 (delivered (run trace initial)) /\
  run (Next :: repeat TimerFired n ++ [Push message]) (run trace initial)
  = mkSource [message] AwaitingTimer 1 (delivered (run trace initial)) /\
  run (Next :: repeat TimerFired n ++ [Push message; TimerFired]) (run trace initial)
  = mkSource [] SuspendedYield 0 (delivered (run trace initial) ++ [message]).
Proof.
  intros Hgen Hqueue.
  destruct (run_accounts trace initial initial_accounts) as [_ Hinv].
  assert (Hnext : step (run trace initial) Next
                  = mkSource [] AwaitingTimer 1 (delivered (run trace initial))).
  { assert (Hzero : requests (run trace initial) = 0) by (apply Hinv; exact Hgen).
    cbn [step]. destruct (generator (run trace initial)); try congruence;
      unfold run_body; rewrite Hzero, Hqueue; simpl; rewrite app_nil_r; reflexivity. }
  assert (Hticks : run (Next :: repeat TimerFired n) (run trace initial)
                   = mkSource [] AwaitingTimer 1 (delivered (run trace initial))).
  { change (run (Next :: repeat TimerFired n) (run trace initial))
      with (run (repeat TimerFired n) (step (run trace initial) Next)).
    rewrite Hnext. apply ticks_on_empty_queue. }
  split; [exact Hticks|].
  split.
  - rewrite app_comm_cons, run_app, Hticks. reflexivity.
  - rewrite app_comm_cons, run_app, Hticks. reflexivity.
Qed.

Lemma pending_request_answered_at_next_tick_witness :
  let a := VString "a" in
  let b := VString "b" in
  let s := run [Push a; Next] initial in
  generator s <> AwaitingTimer /\
  messageQueue s = [] /\
  run (Next :: repeat TimerFired 3) s = mkSource [] AwaitingTimer 1 (delivered s) /\
  run (Next :: repeat TimerFired 3 ++ [Push b]) s
  = mkSource [b] AwaitingTimer 1 (delivered s) /\
  run (Next :: repeat TimerFired 3 ++ [Push b; TimerFired]) s
  = mkSource [] SuspendedYield 0 (delivered s ++ [b]).
Proof.
  split; [discriminate|]. split; [reflexivity|].
  apply (pending_request_answered_at_next_tick
           [Push (VString "a"); Next] 3 (VString "b")); [discriminate|reflexivity].
Defined.

End MessageSourceRequests.

(** ** What the server does to sockets *)

Lemma in_send_if_active (s : Server) (output : WSOutputMessage) (f : Effect) :
  In f (send_if_active s output) ->
  exists ws, activeConnection s = Some ws /\ f = WsSend ws (Json (envelope output)).
Proof.
  unfold send_if_active. destruct (activeConnection s) as [ws|]; simpl;
    [|contradiction].
  intros [<-|[]]. exists ws. auto.
Qed.

Lemma in_on_caught (s : Server) (e : Thrown) (f : Effect) :
  In f (on_caught s e) ->
  f = ConsoleError e \/
  exists ws, activeConnection s = Some ws /\
             f = WsSend ws (Json (envelope (OutError (error_text e)))).
Proof.
  unfold on_caught. intros [<-|Hin]; [left; reflexivity|].
  right. exact (in_send_if_active _ _ _ Hin).
Qed.

(** What [processMessages] does when called for the socket that has just
    become the active connection. *)
Lemma in_processMessages (rt : Runtime) (s : Server) (ws : WebSocket) (f : Effect) :
  activeConnection s = Some ws ->
  In f (snd (processMessages rt s)) ->
  match f with
  | WsSend c data =>
      c = ws /\ exists e, data = Json (envelope (OutError (error_text e)))
  | WsClose _ | SdkInterrupt | HttpRespond _ _ _ => False
  | _ => True
  end.
Proof.
  intros Hactive. unfold processMessages.
  destruct (build_options rt (queryConfig s)) as [e|options]; cbn [snd].
  - intros Hin. apply in_on_caught in Hin.
    destruct Hin as [->|(c & Hc & ->)]; [exact I|].
    split; [congruence|eauto].
  - destruct (query_throws rt options) as [e|]; cbn [snd].
    + intros [<-|Hin]; [exact I|]. apply in_on_caught in Hin.
      destruct Hin as [->|(c & Hc & ->)]; [exact I|].
      split; [congruence|eauto].
    + intros [<-|[<-|[]]]; exact I.
Qed.

(** X16: the handshake of an accepted connection.  A socket that connects
    while no connection is active becomes the active connection and the
    one socket listened to, and the last thing the handler does is send it
    [connected]; before that the handler closes nothing and sends nothing
    to anybody, except an [error] envelope to this same socket when the
    stream could not be created. *)
Theorem accepted_connection_handshake (rt : Runtime) (s : Server) (ws : WebSocket) :
  activeConnection s = None ->
  activeConnection (fst (step rt s (Connection ws))) = Some ws /\
  listening (fst (step rt s (Connection ws))) = ws :: listening s /\
  exists log,
    snd (step rt s (Connection ws))
    = log ++ [WsSend ws (Json (envelope OutConnected))] /\
    (forall c data, In (WsSend c data) log ->
       c = ws /\ exists e, data = Json (envelope (OutError (error_text e)))) /\
    (forall c, ~ In (WsClose c) log).
Proof.
  intros Hactive. cbn [step]. unfold on_connection. rewrite Hactive.
  cbn [activeStream with_activeConnection].
  destruct (activeStream s) as [q|] eqn:Hstream.
  - cbn [fst snd]. split; [reflexivity|]. split; [reflexivity|].
    exists []. split; [reflexivity|]. split; [intros c data []|intros c []].
  - destruct (processMessages_frame rt (with_activeConnection (Some ws) s))
      as (Ha & _ & Hl).
    pose proof (fun f => in_processMessages rt (with_activeConnection (Some ws) s)
                           ws f eq_refl) as Hin.
    destruct (processMessages rt (with_activeConnection (Some ws) s))
      as [s2 started].
    cbn [fst snd] in *. split; [exact Ha|]. split; [rewrite Hl; reflexivity|].
    exists started. split; [reflexivity|]. split.
    + intros c data Hc. exact (Hin _ Hc).
    + intros c Hc. exact (Hin _ Hc).
Qed.

Lemma accepted_connection_handshake_witness :
  let rt := Reference.runtime in
  let s := with_queryConfig VNull initial in
  activeConnection s = None /\
  activeConnection (fst (step rt s (Connection 4))) = Some 4 /\
  listening (fst (step rt s (Connection 4))) = 4 :: listening s /\
  exists log,
    snd (step rt s (Connection 4))
    = log ++ [WsSend 4 (Json (envelope OutConnected))] /\
    (forall c data, In (WsSend c data) log ->
       c = 4 /\ exists e, data = Json (envelope (OutError (error_text e)))) /\
    (forall c, ~ In (WsClose c) log).
Proof.
  split; [reflexivity|].
  apply (accepted_connection_handshake Reference.runtime
           (with_queryConfig VNull initial) 4).
  reflexivity.
Defined.

(** X17: outside the message handler, the server writes only to the socket
    that is connecting or to the active connection, and the only socket it
    ever closes is one it is rejecting because a connection is active: it
    never closes a connection it has accepted. *)
Theorem server_socket_effects
    (rt : Runtime) (s : Server) (e : Event) (c : WebSocket) :
  is_message e = false ->
  (forall data, In (WsSend c data) (snd (step rt s e)) ->
     e = Connection c \/ activeConnection s = Some c) /\
  (In (WsClose c) (snd (step rt s e)) ->
     e = Connection c /\ activeConnection s <> None).
Proof.
  intros Hevent.
  destruct e as [ws|ws data|ws|message|err| |data|req]; try discriminate;
    cbn [step].
  - unfold on_connection. destruct (activeConnection s) as [active|] eqn:Hactive.
    + cbn [snd]. split.
      * intros data [[= -> _]|[[=]|[]]]. left. reflexivity.
      * intros [[=]|[[= ->]|[]]]. split; [reflexivity|discriminate].
    + cbn [activeStream with_activeConnection].
      pose proof (fun f => in_processMessages rt (with_activeConnection (Some ws) s)
                             ws f eq_refl) as Hin.
      destruct (match activeStream s with
                | Some _ => (with_activeConnection (Some ws) s, [])
                | None => processMessages rt (with_activeConnection (Some ws) s)
                end) as [s2 started] eqn:Hstart.
      assert (Hstarted : forall f, In f started ->
                match f with
                | WsSend c' _ => c' = ws
                | WsClose _ => False
                | _ => True
                end).
      { intros f Hf. destruct (activeStream s).
        - injection Hstart as _ <-. contradiction.
        - rewrite Hstart in Hin. specialize (Hin f Hf).
          destruct f; try exact I; try contradiction. apply Hin. }
      cbn [snd]. split.
      * intros data Hc. apply in_app_or in Hc. destruct Hc as [Hc|[[= -> _]|[]]].
        -- left. f_equal. symmetry. exact (Hstarted _ Hc).
        -- left. reflexivity.
      * intros Hc. apply in_app_or in Hc. destruct Hc as [Hc|[[=]|[]]].
        destruct (Hstarted _ Hc).
  - unfold on_close. destruct (is_listening ws s); cbn [snd];
      split; intros; contradiction.
  - unfold on_stream_item. destruct (iterating s); cbn [snd];
      split; try (intros; contradiction).
    + intros data Hc. apply in_send_if_active in Hc.
      destruct Hc as (w & Hw & [= -> _]). right. exact Hw.
    + intros Hc. apply in_send_if_active in Hc.
      destruct Hc as (w & _ & [=]).
  - unfold on_stream_error. destruct (iterating s); cbn [snd];
      split; try (intros; contradiction).
    + intros data Hc. apply in_on_caught in Hc.
      destruct Hc as [[=]|(w & Hw & [= -> _])]. right. exact Hw.
    + intros Hc. apply in_on_caught in Hc.
      destruct Hc as [[=]|(w & _ & [=])].
  - unfold on_stream_end. destruct (iterating s); cbn [snd];
      split; intros; contradiction.
  - unfold on_stderr. destruct (stderr_installed s); cbn [snd];
      split; try (intros; contradiction).
    + intros payload Hc. apply in_send_if_active in Hc.
      destruct Hc as (w & Hw & [= -> _]). right. exact Hw.
    + intros Hc. apply in_send_if_active in Hc.
      destruct Hc as (w & _ & [=]).
  - unfold on_request.
    destruct ((pathname req =? "/config") && (method req =? "POST")).
    + destruct (JSON_parse rt (body req)); cbn [snd]; split.
      * intros data [[=]|[]].
      * intros [[=]|[]].
      * intros data [[=]|[]].
      * intros [[=]|[]].
    + destruct ((pathname req =? "/config") && (method req =? "GET")); cbn [snd];
        split.
      * intros data [[=]|[]].
      * intros [[=]|[]].
      * intros data [[=]|[]].
      * intros [[=]|[]].
Qed.

Lemma server_socket_effects_witness :
  let rt := Reference.runtime in
  let s := state_after rt [Connection 1] initial in
  is_message (Connection 2) = false /\
  (forall data, In (WsSend 2 data) (snd (step rt s (Connection 2))) ->
     Connection 2 = Connection 2 \/ activeConnection s = Some 2) /\
  (In (WsClose 2) (snd (step rt s (Connection 2))) ->
     Connection 2 = Connection 2 /\ activeConnection s <> None).
Proof.
  split; [reflexivity|].
  apply (server_socket_effects Reference.runtime
           (state_after Reference.runtime [Connection 1] initial)
           (Connection 2) 2).
  reflexivity.
Defined.
